(** * RedisShake: the RDB loader (package [rdb]) and [types.StringObject]

    A shallow embedding of [Loader.ParseRDB], [Loader.parseRDBEntry] and
    [Loader.createValueDump], together with [StringObject.LoadFromBuffer]
    and [StringObject.Rewrite].

    Conventions of the embedding.
    - Go's [int], [int64] are [Z] with the two's-complement wrap written
      out ([int64]); [uint64], [uint32] are [Z] reduced modulo the width.
    - [[]byte] is [list byte]; a Go [string] is a [string] (a sequence of
      8-bit characters); [bytes.Buffer.String] is [string_of_list_byte].
    - [config.Config.Target.Version] is a [float64]: a primitive float,
      compared with the IEEE comparisons.
    - A [log.Panicf] / [log.PanicError] ends the run with [Panic]; the
      loader's state at that moment, the channel included, is kept.
    - The channel [ld.ch] is the list of the entries sent on it, oldest
      first.
    - [log.Infof], the statistics counters and the one-second progress
      tick write nothing the loader reads back and are left out. *)

From Stdlib Require Import ZArith List Bool Lia.
From Stdlib Require Import Strings.String Strings.Ascii Strings.Byte.
From Stdlib Require Import DecimalString PrimFloat.
Import ListNotations.

Local Open Scope string_scope.
Local Open Scope list_scope.
Local Open Scope Z_scope.

(** ** Machine integers *)

(** The value of a 64-bit pattern read as a signed integer: Go's
    conversion to [int64] (or [int]) and the result of [int64]
    arithmetic. *)
Definition int64 (z : Z) : Z := (z + 2 ^ 63) mod 2 ^ 64 - 2 ^ 63.

Definition uint64 (z : Z) : Z := z mod 2 ^ 64.
Definition uint32 (z : Z) : Z := z mod 2 ^ 32.

Definition Z_of_byte (b : byte) : Z := Z.of_N (Byte.to_N b).

(** The byte holding the low eight bits of [z]. *)
Definition byte_of_Z (z : Z) : byte :=
  match Byte.of_N (Z.to_N (z mod 256)) with
  | Some b => b
  | None => x00
  end.

(** [binary.Write(w, binary.LittleEndian, v)] for an unsigned [v] of
    [n] bytes, and the matching read. *)
Fixpoint le_bytes (n : nat) (v : Z) : list byte :=
  match n with
  | O => []
  | S k => byte_of_Z v :: le_bytes k (Z.shiftr v 8)
  end.

Fixpoint le_value (bs : list byte) : Z :=
  match bs with
  | [] => 0
  | b :: rest => Z_of_byte b + Z.shiftl (le_value rest) 8
  end.

(** [bytes.Equal]. *)
Fixpoint bytes_Equal (a b : list byte) : bool :=
  match a, b with
  | [], [] => true
  | x :: a', y :: b' => Byte.eqb x y && bytes_Equal a' b'
  | _, _ => false
  end.

(** ** Package [strconv] *)

Module strconv.

(** [strconv.FormatInt(i, 10)]. *)
Definition FormatInt (i : Z) : string := NilZero.string_of_int (Z.to_int i).

Definition digit (c : ascii) : option Z :=
  let n := Z.of_N (N_of_ascii c) in
  if (48 <=? n) && (n <=? 57) then Some (n - 48) else None.

Inductive NumError : Set := ErrSyntax | ErrRange.

(** The loop of [strconv.ParseUint(s, 10, 64)] over the characters, [n]
    the value so far: a character that is no decimal digit is a syntax
    error, met in its turn; a value that leaves [uint64] is a range
    error with the largest [uint64], whatever follows. *)
Fixpoint ParseUint_loop (n : Z) (s : string) : Z * option NumError :=
  match s with
  | EmptyString => (n, None)
  | String c rest =>
      match digit c with
      | None => (0, Some ErrSyntax)
      | Some d =>
          if (2 ^ 64 - 1) / 10 + 1 <=? n then (2 ^ 64 - 1, Some ErrRange)
          else
            let n1 := n * 10 + d in
            if 2 ^ 64 - 1 <? n1 then (2 ^ 64 - 1, Some ErrRange)
            else ParseUint_loop n1 rest
      end
  end.

Definition ParseUint (s : string) : Z * option NumError :=
  match s with
  | EmptyString => (0, Some ErrSyntax)
  | _ => ParseUint_loop 0 s
  end.

(** [strconv.ParseInt(s, 10, 0)] on a 64-bit platform. *)
Definition ParseInt (s : string) : Z * option NumError :=
  match s with
  | EmptyString => (0, Some ErrSyntax)
  | String c rest =>
      let neg := Ascii.eqb c "-" in
      let body := if Ascii.eqb c "+" || neg then rest else s in
      match ParseUint body with
      | (_, Some ErrSyntax) => (0, Some ErrSyntax)
      | (un, _) =>
          if negb neg && (2 ^ 63 <=? un) then (2 ^ 63 - 1, Some ErrRange)
          else if neg && (2 ^ 63 <? un) then (- 2 ^ 63, Some ErrRange)
          else (if neg then - un else un, None)
      end
  end.

(** [strconv.Atoi] on a 64-bit platform, with both its results. Its
    fast path, taken by strings of 1 to 18 characters, gives what
    [ParseInt] gives on them. *)
Definition Atoi (s : string) : Z * option NumError := ParseInt s.

End strconv.

(** ** Package [entry] *)

Module entry.

(** Modelled from the spec: [entry.Entry] and [entry.NewEntry], whose
    package is outside these sources. A command has a database index,
    its arguments in order and the snapshot-load flag; a new entry has
    Go's zero values. *)
Record Entry := mkEntry {
  DbId : Z;
  Argv : list string;
  IsBase : bool
}.

Definition NewEntry : Entry := {| DbId := 0; Argv := []; IsBase := false |}.

End entry.

(** ** Package [config] *)

Module config.

(** Modelled from the spec: the three settings of [config.Config] the
    loader reads: [Advanced.TargetRedisProtoMaxBulkLen] (a [uint64]),
    [Advanced.RDBRestoreCommandBehavior] and [Target.Version]. *)
Record Config := mkConfig {
  TargetRedisProtoMaxBulkLen : Z;
  RDBRestoreCommandBehavior : string;
  Version : float
}.

End config.

(** ** Package [types]: objects and [StringObject] *)

Module types.

Definition RedisCmd := list string.

(** The part of the interface [RedisObject] the loader calls. *)
Class RedisObject (T : Type) := { Rewrite : T -> list RedisCmd }.

Record StringObject := mkStringObject {
  value : string;
  key : string
}.

Definition StringObject_Rewrite (o : StringObject) : list RedisCmd :=
  let cmd : RedisCmd := [] in
  let cmd := cmd ++ ["set"; key o; value o] in
  [cmd].

#[global] Instance StringObject_RedisObject : RedisObject StringObject :=
  {| Rewrite := StringObject_Rewrite |}.

(** A value of interface type: some type with its methods. *)
Inductive Object : Type :=
| Obj {T : Type} {M : RedisObject T} (o : T).

Definition Object_Rewrite (x : Object) : list RedisCmd :=
  match x with
  | Obj o => Rewrite o
  end.

End types.

(** ** What the loader imports *)

(** A function that reads from an [io.Reader]: applied to the bytes still
    to come it gives its result and the number of bytes it took, or
    [None] when it panics (exhausted or malformed input). *)
Definition Reader (A : Type) := list byte -> option (A * nat).

Module structure.

(** Modelled from the spec: [structure.ReadByte], one byte off the
    source, a failure when the source is exhausted. *)
Definition ReadByte : Reader byte :=
  fun r =>
    match r with
    | [] => None
    | b :: _ => Some (b, 1%nat)
    end.

End structure.

(** The functions of [structure], [types] and [utils] whose bodies are
    outside these sources; the loader is defined, and its properties are
    proved, for any of them. Their results are read at their Go types:
    [ReadLength], [ReadUint64] and [CalcCRC64] give a [uint64],
    [ReadUint32] a [uint32]. *)
Class Structure := {
  ReadLength : Reader Z;
  ReadString : Reader string;
  ReadUint32 : Reader Z;
  ReadUint64 : Reader Z
}.

Class Imports := {
  Imports_structure :: Structure;
  ParseObject : list byte -> byte -> string -> option (types.Object * nat);
  CalcCRC64 : list byte -> Z
}.

(** [StringObject.LoadFromBuffer]: the object after the call. *)
Definition StringObject_LoadFromBuffer {S : Structure}
    (rd : list byte) (key : string) (_ : byte)
  : option (types.StringObject * nat) :=
  match ReadString rd with
  | Some (v, n) => Some ({| types.value := v; types.key := key |}, n)
  | None => None
  end.

(** ** Package [rdb] *)

Definition kFlagFunction2 : byte := xf5.
Definition kFlagFunction : byte := xf6.
Definition kFlagModuleAux : byte := xf7.
Definition kFlagIdle : byte := xf8.
Definition kFlagFreq : byte := xf9.
Definition kFlagAUX : byte := xfa.
Definition kFlagResizeDB : byte := xfb.
Definition kFlagExpireMs : byte := xfc.
Definition kFlagExpire : byte := xfd.
Definition kFlagSelect : byte := xfe.
Definition kEOF : byte := xff.

(** [fp] is represented by the reader over it, see [World]. *)
Record Loader := mkLoader {
  replStreamDbId : Z;
  nowDBId : Z;
  expireMs : Z;
  idle : Z;
  freq : Z;
  filPath : string;
  ch : list entry.Entry;
  dumpBuffer : list byte
}.

Definition NewLoader (filPath : string) (ch : list entry.Entry) : Loader :=
  {| replStreamDbId := 0; nowDBId := 0; expireMs := 0; idle := 0; freq := 0;
     filPath := filPath; ch := ch; dumpBuffer := [] |}.

Definition set_replStreamDbId (v : Z) (l : Loader) : Loader :=
  mkLoader v (nowDBId l) (expireMs l) (idle l) (freq l) (filPath l) (ch l) (dumpBuffer l).
Definition set_nowDBId (v : Z) (l : Loader) : Loader :=
  mkLoader (replStreamDbId l) v (expireMs l) (idle l) (freq l) (filPath l) (ch l) (dumpBuffer l).
Definition set_expireMs (v : Z) (l : Loader) : Loader :=
  mkLoader (replStreamDbId l) (nowDBId l) v (idle l) (freq l) (filPath l) (ch l) (dumpBuffer l).
Definition set_idle (v : Z) (l : Loader) : Loader :=
  mkLoader (replStreamDbId l) (nowDBId l) (expireMs l) v (freq l) (filPath l) (ch l) (dumpBuffer l).
Definition set_freq (v : Z) (l : Loader) : Loader :=
  mkLoader (replStreamDbId l) (nowDBId l) (expireMs l) (idle l) v (filPath l) (ch l) (dumpBuffer l).
Definition set_ch (v : list entry.Entry) (l : Loader) : Loader :=
  mkLoader (replStreamDbId l) (nowDBId l) (expireMs l) (idle l) (freq l) (filPath l) v (dumpBuffer l).
Definition set_dumpBuffer (v : list byte) (l : Loader) : Loader :=
  mkLoader (replStreamDbId l) (nowDBId l) (expireMs l) (idle l) (freq l) (filPath l) (ch l) v.

(** The loader together with what it reads: [rd], the bytes of the file
    the buffered reader has still to deliver, and [ticks], the number of
    readings of the wall clock taken so far. *)
Record World := mkWorld {
  ld : Loader;
  rd : list byte;
  ticks : nat
}.

(** The sites where the loader panics. *)
Inductive PanicMsg : Set :=
| OpenFileFailed
| HeaderReadFailed
| InvalidMagic
| InvalidVersion
| ReadFailed
| InvalidReplStreamDb
| ReplaceNotSupported.

Inductive Res (A : Type) : Type :=
| Ok (a : A)
| Panic (e : PanicMsg)
| OutOfFuel.
Arguments Ok {A} a.
Arguments Panic {A} e.
Arguments OutOfFuel {A}.

(** State and panic monad of the loader. *)
Definition M (A : Type) : Type := World -> Res A * World.

Definition ret {A : Type} (a : A) : M A := fun w => (Ok a, w).

Definition bind {A B : Type} (c : M A) (k : A -> M B) : M B :=
  fun w =>
    match c w with
    | (Ok a, w') => k a w'
    | (Panic e, w') => (Panic e, w')
    | (OutOfFuel, w') => (OutOfFuel, w')
    end.

Definition panic {A : Type} (e : PanicMsg) : M A := fun w => (Panic e, w).

Declare Scope loader_scope.
Delimit Scope loader_scope with loader.
Notation "x <- c1 ;; c2" := (bind c1 (fun x => c2))
  (at level 61, c1 at next level, right associativity) : loader_scope.
Notation "c1 ;; c2" := (bind c1 (fun _ => c2))
  (at level 61, right associativity) : loader_scope.
Local Open Scope loader_scope.

Definition gets {A : Type} (f : Loader -> A) : M A := fun w => (Ok (f (ld w)), w).

Definition modify (f : Loader -> Loader) : M unit :=
  fun w => (Ok tt, mkWorld (f (ld w)) (rd w) (ticks w)).

(** [ld.ch <- e]. *)
Definition send (e : entry.Entry) : M unit :=
  modify (fun l => set_ch (ch l ++ [e]) l).

(** A call [f(rd)]. *)
Definition read {A : Type} (f : Reader A) : M A :=
  fun w =>
    match f (rd w) with
    | Some (a, n) => (Ok a, mkWorld (ld w) (skipn n (rd w)) (ticks w))
    | None => (Panic ReadFailed, w)
    end.

(** A call [f(io.TeeReader(rd, &value))] on an empty [value]: the result
    of [f] and the contents of [value] afterwards. *)
Definition teeRead {A : Type} (f : Reader A) : M (A * list byte) :=
  fun w =>
    match f (rd w) with
    | Some (a, n) =>
        (Ok (a, firstn n (rd w)), mkWorld (ld w) (skipn n (rd w)) (ticks w))
    | None => (Panic ReadFailed, w)
    end.

Fixpoint forEach {A : Type} (xs : list A) (body : A -> M unit) : M unit :=
  match xs with
  | [] => ret tt
  | x :: rest => body x ;; forEach rest body
  end.

(** What one turn of the loop of [parseRDBEntry] ends with. *)
Inductive Flow : Set := Continue | Return.

Section Loader.

Context {I : Imports}.
(** [config.Config], and the wall clock: the value of
    [time.Now().UnixMilli()] at each successive reading. *)
Variable Config : config.Config.
Variable clock : nat -> Z.

Definition UnixMilli : M Z :=
  fun w => (Ok (int64 (clock (ticks w))), mkWorld (ld w) (rd w) (S (ticks w))).

Definition createValueDump (typeByte : byte) (val : list byte) : M string :=
  modify (set_dumpBuffer []) ;;
  modify (fun l => set_dumpBuffer (dumpBuffer l ++ [typeByte]) l) ;;
  modify (fun l => set_dumpBuffer (dumpBuffer l ++ val) l) ;;
  modify (fun l => set_dumpBuffer (dumpBuffer l ++ le_bytes 2 6) l) ;;
  bytes <- gets dumpBuffer ;;
  let sum64 := uint64 (CalcCRC64 bytes) in
  modify (fun l => set_dumpBuffer (dumpBuffer l ++ le_bytes 8 sum64) l) ;;
  bytes <- gets dumpBuffer ;;
  ret (string_of_list_byte bytes).

(** The [default] case of the switch: a value of type [typeByte]. *)
Definition parseValue (typeByte : byte) : M Flow :=
  key <- read ReadString ;;
  ov <- teeRead (fun r => ParseObject r typeByte key) ;;
  let o := fst ov in
  let value := snd ov in
  (if Z.of_nat (List.length value) >? config.TargetRedisProtoMaxBulkLen Config then
     let cmds := types.Object_Rewrite o in
     forEach cmds (fun cmd =>
       db <- gets nowDBId ;;
       send {| entry.IsBase := true; entry.DbId := db; entry.Argv := cmd |}) ;;
     expire <- gets expireMs ;;
     if negb (expire =? 0) then
       db <- gets nowDBId ;;
       send {| entry.IsBase := true; entry.DbId := db;
               entry.Argv := ["PEXPIRE"; key; strconv.FormatInt expire] |}
     else ret tt
   else
     db <- gets nowDBId ;;
     v <- createValueDump typeByte value ;;
     expire <- gets expireMs ;;
     let argv := ["restore"; key; strconv.FormatInt expire; v] in
     argv <-
       (if String.eqb (config.RDBRestoreCommandBehavior Config) "rewrite" then
          if PrimFloat.ltb (config.Version Config) 3 then panic ReplaceNotSupported
          else ret (argv ++ ["replace"])
        else ret argv) ;;
     idle_ <- gets idle ;;
     let argv :=
       if negb (idle_ =? 0) && PrimFloat.leb 5 (config.Version Config)
       then argv ++ ["idletime"; strconv.FormatInt idle_] else argv in
     freq_ <- gets freq ;;
     let argv :=
       if negb (freq_ =? 0) && PrimFloat.leb 5 (config.Version Config)
       then argv ++ ["freq"; strconv.FormatInt freq_] else argv in
     send {| entry.IsBase := true; entry.DbId := db; entry.Argv := argv |}) ;;
  modify (set_expireMs 0) ;;
  modify (set_idle 0) ;;
  modify (set_freq 0) ;;
  ret Continue.

(** The [switch typeByte] of [parseRDBEntry]. *)
Definition parseRDBEntry_switch (typeByte : byte) : M Flow :=
  if Byte.eqb typeByte kFlagIdle then
    n <- read ReadLength ;;
    modify (set_idle (int64 (uint64 n))) ;;
    ret Continue
  else if Byte.eqb typeByte kFlagFreq then
    b <- read structure.ReadByte ;;
    modify (set_freq (Z_of_byte b)) ;;
    ret Continue
  else if Byte.eqb typeByte kFlagAUX then
    key <- read ReadString ;;
    value <- read ReadString ;;
    if String.eqb key "repl-stream-db" then
      let (n, err) := strconv.Atoi value in
      modify (set_replStreamDbId n) ;;
      match err with
      | Some _ => panic InvalidReplStreamDb
      | None => ret Continue
      end
    else if String.eqb key "lua" then
      send {| entry.DbId := entry.DbId entry.NewEntry;
              entry.Argv := ["script"; "load"; value];
              entry.IsBase := true |} ;;
      ret Continue
    else ret Continue
  else if Byte.eqb typeByte kFlagResizeDB then
    dbSize <- read ReadLength ;;
    expireSize <- read ReadLength ;;
    ret Continue
  else if Byte.eqb typeByte kFlagExpireMs then
    at_ <- read ReadUint64 ;;
    now <- UnixMilli ;;
    let e := int64 (int64 (uint64 at_) - now) in
    modify (set_expireMs e) ;;
    (if e <? 0 then modify (set_expireMs 1) else ret tt) ;;
    ret Continue
  else if Byte.eqb typeByte kFlagExpire then
    at_ <- read ReadUint32 ;;
    now <- UnixMilli ;;
    let e := int64 (int64 (uint32 at_ * 1000) - now) in
    modify (set_expireMs e) ;;
    (if e <? 0 then modify (set_expireMs 1) else ret tt) ;;
    ret Continue
  else if Byte.eqb typeByte kFlagSelect then
    n <- read ReadLength ;;
    modify (set_nowDBId (int64 (uint64 n))) ;;
    ret Continue
  else if Byte.eqb typeByte kEOF then
    ret Return
  else
    parseValue typeByte.

(** One turn of the loop [for true] of [parseRDBEntry]. *)
Definition parseRDBEntry_turn : M Flow :=
  typeByte <- read structure.ReadByte ;;
  parseRDBEntry_switch typeByte.

(** The loop, for at most [fuel] turns. *)
Fixpoint parseRDBEntry_loop (fuel : nat) : M unit :=
  fun w =>
    match fuel with
    | O => (OutOfFuel, w)
    | S k =>
        match parseRDBEntry_turn w with
        | (Ok Continue, w') => parseRDBEntry_loop k w'
        | (Ok Return, w') => (Ok tt, w')
        | (Panic e, w') => (Panic e, w')
        | (OutOfFuel, w') => (OutOfFuel, w')
        end
    end.

(** Every turn takes at least the opcode byte off [rd], so one turn
    more than there are bytes is fuel enough ([parseRDBEntry_returns]). *)
Definition parseRDBEntry : M unit :=
  fun w => parseRDBEntry_loop (S (List.length (rd w))) w.

(** [io.ReadFull(rd, buf)] for a [buf] of [n] bytes. *)
Definition ReadFull (n : nat) : M (list byte) :=
  fun w =>
    if (List.length (rd w) <? n)%nat
    then (Panic HeaderReadFailed, mkWorld (ld w) [] (ticks w))
    else (Ok (firstn n (rd w)), mkWorld (ld w) (skipn n (rd w)) (ticks w)).

(** [ParseRDB], on a file system [fs] giving the contents of the files
    that can be opened. Closing the file and [os.Stat] are taken to
    succeed. *)
Definition ParseRDB (fs : string -> option (list byte)) : M Z :=
  path <- gets filPath ;;
  match fs path with
  | None => panic OpenFileFailed
  | Some contents =>
      (fun w => (Ok tt, mkWorld (ld w) contents (ticks w))) ;;
      buf <- ReadFull 9 ;;
      if negb (bytes_Equal (firstn 5 buf) (list_byte_of_string "REDIS"))
      then panic InvalidMagic
      else
        let (version, err) := strconv.Atoi (string_of_list_byte (skipn 5 buf)) in
        match err with
        | Some _ => panic InvalidVersion
        | None =>
            parseRDBEntry ;;
            gets replStreamDbId
        end
  end.

End Loader.

(** ** Notions the properties are stated with *)

Section Notions.

Context {I : Imports}.
Variable Config : config.Config.

(** The dump envelope as the data model describes it: type tag,
    captured payload, the footer (the 16-bit value 6, little-endian)
    and the checksum of all that precedes it (64 bits, little-endian). *)
Definition DumpEnvelope (type_tag : byte) (payload : list byte) : list byte :=
  let body := [type_tag] ++ payload ++ le_bytes 2 6 in
  body ++ le_bytes 8 (uint64 (CalcCRC64 body)).

(** An envelope split again into type tag, payload, footer and
    checksum; [None] when it is shorter than the fixed parts. *)
Definition splitDump (dump : list byte) : option (byte * list byte * Z * Z) :=
  match dump with
  | [] => None
  | type_tag :: rest =>
      if (List.length rest <? 10)%nat then None
      else
        let n := (List.length rest - 10)%nat in
        Some (type_tag, firstn n rest,
              le_value (firstn 2 (skipn n rest)),
              le_value (skipn 2 (skipn n rest)))
  end.

(** The opcode bytes the switch of [parseRDBEntry] names; every other
    byte is the type tag of a value record. *)
Definition isOpcode (b : byte) : bool :=
  existsb (Byte.eqb b)
    [kFlagIdle; kFlagFreq; kFlagAUX; kFlagResizeDB; kFlagExpireMs;
     kFlagExpire; kFlagSelect; kEOF].

(** The metadata opcodes: all of them but the end marker. *)
Definition isMetadata (b : byte) : bool :=
  existsb (Byte.eqb b)
    [kFlagIdle; kFlagFreq; kFlagAUX; kFlagResizeDB; kFlagExpireMs;
     kFlagExpire; kFlagSelect].

(** A well-formed value record at the head of [rd]. *)
Record ValueRecord := mkValueRecord {
  vr_typeByte : byte;
  vr_key : string;
  vr_object : types.Object;
  vr_payload : list byte;   (* the captured payload *)
  vr_rest : list byte       (* what follows the record *)
}.

Definition nextValue (r : list byte) : option ValueRecord :=
  match r with
  | [] => None
  | typeByte :: rest =>
      if isOpcode typeByte then None
      else
        match ReadString rest with
        | None => None
        | Some (key, n1) =>
            match ParseObject (skipn n1 rest) typeByte key with
            | None => None
            | Some (o, n2) =>
                Some (mkValueRecord typeByte key o
                        (firstn n2 (skipn n1 rest))
                        (skipn n2 (skipn n1 rest)))
            end
        end
  end.

Definition oversize (v : ValueRecord) : bool :=
  Z.of_nat (List.length (vr_payload v)) >? config.TargetRedisProtoMaxBulkLen Config.

(** A value record that takes the normal path at the head of [rd]. *)
Definition normalValue (r : list byte) : bool :=
  match nextValue r with
  | Some v => negb (oversize v)
  | None => false
  end.

(** A well-formed [Aux] record at the head of [rd]: key, value and
    what follows. *)
Definition nextAux (r : list byte) : option (string * string * list byte) :=
  match r with
  | [] => None
  | typeByte :: rest =>
      if Byte.eqb typeByte kFlagAUX then
        match ReadString rest with
        | None => None
        | Some (key, n1) =>
            match ReadString (skipn n1 rest) with
            | None => None
            | Some (value, n2) => Some (key, value, skipn n2 (skipn n1 rest))
            end
        end
      else None
  end.

(** An [Aux] record with the key ["repl-stream-db"] at the head of
    [rd]. *)
Definition replRecord (r : list byte) : bool :=
  match nextAux r with
  | Some (key, _, _) => String.eqb key "repl-stream-db"
  | None => false
  end.

Definition rewriteOnRestore : bool :=
  String.eqb (config.RDBRestoreCommandBehavior Config) "rewrite".

(** The arguments of the restore command, modifiers included, for a
    key, an envelope and the pending fields of a loader. *)
Definition restoreArgv (l : Loader) (key envelope : string) : list string :=
  ["restore"; key; strconv.FormatInt (expireMs l); envelope]
  ++ (if rewriteOnRestore then ["replace"] else [])
  ++ (if negb (idle l =? 0) && PrimFloat.leb 5 (config.Version Config)
      then ["idletime"; strconv.FormatInt (idle l)] else [])
  ++ (if negb (freq l =? 0) && PrimFloat.leb 5 (config.Version Config)
      then ["freq"; strconv.FormatInt (freq l)] else []).

(** The commands of the oversize path for an object, a key and a
    loader. *)
Definition rewriteEntries (l : Loader) (o : types.Object) (key : string)
  : list entry.Entry :=
  map (fun cmd => entry.mkEntry (nowDBId l) cmd true) (types.Object_Rewrite o)
  ++ (if expireMs l =? 0 then []
      else [entry.mkEntry (nowDBId l)
              ["PEXPIRE"; key; strconv.FormatInt (expireMs l)] true]).

(** The pending expiry after an expire opcode, for the difference
    [e] of the timestamp and the clock. *)
Definition clamp (e : Z) : Z := if e <? 0 then 1 else e.

(** The pending fields back at their neutral value. *)
Definition resetPending (l : Loader) : Loader :=
  set_freq 0 (set_idle 0 (set_expireMs 0 l)).

Variable clock : nat -> Z.

(** [Visits w w']: the loop started in [w] is, after some turns that
    all continued, about to take a turn in [w']. *)
Inductive Visits : World -> World -> Prop :=
| Visits_here : forall w, Visits w w
| Visits_turn : forall w w1 w2,
    parseRDBEntry_turn Config clock w = (Ok Continue, w1) ->
    Visits w1 w2 ->
    Visits w w2.

End Notions.

(** A computation is tame when it never runs out of fuel and never puts
    bytes back on [rd]. *)
Definition Tame {A : Type} (c : M A) : Prop :=
  forall w r w', c w = (r, w') ->
    r <> OutOfFuel /\ (List.length (rd w') <= List.length (rd w))%nat.

(** A computation is quiet when it sends nothing, leaves
    [replStreamDbId] alone, and either gives a result in [P] or panics
    on a failed read. *)
Definition Quiet {A : Type} (P : A -> Prop) (c : M A) : Prop :=
  forall w r w', c w = (r, w') ->
    ch (ld w') = ch (ld w)
    /\ replStreamDbId (ld w') = replStreamDbId (ld w)
    /\ (r = Panic ReadFailed \/ exists a, r = Ok a /\ P a).

Definition anything {A : Type} : A -> Prop := fun _ => True.

(** A computation keeps a property of the loader when the property
    holds after it, however it ends, if it held before. *)
Definition Keeps {A : Type} (P : Loader -> Prop) (c : M A) : Prop :=
  forall w r w', c w = (r, w') -> P (ld w) -> P (ld w').

(** The entries [es] all carry the snapshot-load flag. *)
Definition allBase (es : list entry.Entry) : Prop :=
  Forall (fun e => entry.IsBase e = true) es.

(** The channel holds [before] followed by entries that all carry the
    snapshot-load flag. *)
Definition grownFrom (before : list entry.Entry) (l : Loader) : Prop :=
  exists es, ch l = before ++ es /\ allBase es.

(** A [SelectDb] record at the head of [rd]. *)
Definition selectRecord (r : list byte) : bool :=
  match r with
  | [] => false
  | typeByte :: _ => Byte.eqb typeByte kFlagSelect
  end.

Section Traces.

Context {I : Imports}.
Variable Config : config.Config.
Variable clock : nat -> Z.

(** [VisitsVia Q w w']: as [Visits], every turn taken in a world
    where [Q] holds. *)
Inductive VisitsVia (Q : World -> Prop) : World -> World -> Prop :=
| VisitsVia_here : forall w, VisitsVia Q w w
| VisitsVia_turn : forall w w1 w2,
    Q w ->
    parseRDBEntry_turn Config clock w = (Ok Continue, w1) ->
    VisitsVia Q w1 w2 ->
    VisitsVia Q w w2.

End Traces.

(** ** A concrete set of imports

    Used to run the loader on concrete snapshots. *)

Module plain.

Definition pure {A : Type} (a : A) : Reader A := fun _ => Some (a, 0%nat).

Definition fail {A : Type} : Reader A := fun _ => None.

Definition andThen {A B : Type} (f : Reader A) (k : A -> Reader B) : Reader B :=
  fun r =>
    match f r with
    | None => None
    | Some (a, n) =>
        match k a (skipn n r) with
        | None => None
        | Some (b, m) => Some (b, (n + m)%nat)
        end
    end.

Definition ReadBytes (n : nat) : Reader (list byte) :=
  fun r => if (List.length r <? n)%nat then None else Some (firstn n r, n).

Definition be_value (bs : list byte) : Z := le_value (rev bs).

(** The value of the low [8 * n] bits of [v] read as a signed integer. *)
Definition signed (n : nat) (v : Z) : Z :=
  let m := 2 ^ (8 * Z.of_nat n) in
  if v mod m <? m / 2 then v mod m else v mod m - m.

(** Modelled from the spec: [read_length], with the class [11] given
    apart: [(true, low)] is the special string encoding [low],
    [(false, v)] the length [v]. *)
Definition ReadLengthOrSpecial : Reader (bool * Z) :=
  andThen structure.ReadByte (fun b =>
    let class := Z.shiftr (Z_of_byte b) 6 in
    let low := Z.land (Z_of_byte b) 63 in
    if class =? 0 then pure (false, low)
    else if class =? 1 then
      andThen structure.ReadByte (fun b2 =>
        pure (false, Z.lor (Z.shiftl low 8) (Z_of_byte b2)))
    else if class =? 2 then
      if low =? 0 then andThen (ReadBytes 4) (fun bs => pure (false, be_value bs))
      else if low =? 1 then andThen (ReadBytes 8) (fun bs => pure (false, be_value bs))
      else fail
    else pure (true, low)).

(** Modelled from the spec: [structure.ReadLength]; the class [11] is
    malformed for a caller that expects a length. *)
Definition ReadLength : Reader Z :=
  andThen ReadLengthOrSpecial (fun sv =>
    if fst sv then fail else pure (snd sv)).

(** Modelled from the spec: [structure.ReadString], for a
    length-prefixed string and for the integers of one, two and four
    bytes. The compressed form (selector 3) needs the compression
    decoder, which is not part of this set: it fails here. *)
Definition ReadString : Reader string :=
  andThen ReadLengthOrSpecial (fun sv =>
    let v := snd sv in
    if fst sv then
      if v =? 0 then
        andThen (ReadBytes 1) (fun bs => pure (strconv.FormatInt (signed 1 (le_value bs))))
      else if v =? 1 then
        andThen (ReadBytes 2) (fun bs => pure (strconv.FormatInt (signed 2 (le_value bs))))
      else if v =? 2 then
        andThen (ReadBytes 4) (fun bs => pure (strconv.FormatInt (signed 4 (le_value bs))))
      else fail
    else andThen (ReadBytes (Z.to_nat v)) (fun bs => pure (string_of_list_byte bs))).

(** Modelled from the spec: [structure.ReadUint32] and
    [structure.ReadUint64], the fixed-width [read_uint32_be] and
    [read_uint64_be]. *)
Definition ReadUint32 : Reader Z :=
  andThen (ReadBytes 4) (fun bs => pure (be_value bs)).

Definition ReadUint64 : Reader Z :=
  andThen (ReadBytes 8) (fun bs => pure (be_value bs)).

Definition structure : Structure :=
  Build_Structure ReadLength ReadString ReadUint32 ReadUint64.

(** The type tag of a string value. *)
Definition rdbTypeString : byte := x00.

(** Modelled from the spec: [types.ParseObject], one decoder per type
    tag. The string decoder is [StringObject.LoadFromBuffer]; the
    decoders of the other types are outside these sources and their
    tags fail here, as an unknown tag does. *)
Definition ParseObject (rd : list byte) (typeByte : byte) (key : string)
  : option (types.Object * nat) :=
  if Byte.eqb typeByte rdbTypeString then
    match StringObject_LoadFromBuffer (S := structure) rd key typeByte with
    | Some (o, n) => Some (types.Obj o, n)
    | None => None
    end
  else None.

(** Modelled from the spec: [utils.CalcCRC64], the Jones CRC-64 of the
    reference store: reflected polynomial, initial value 0, computed
    bit by bit. *)
Definition crc64_poly : Z := 0x95ac9329ac4bc9b5.

Fixpoint crc64_bits (n : nat) (crc : Z) : Z :=
  match n with
  | O => crc
  | S k =>
      crc64_bits k
        (if Z.testbit crc 0 then Z.lxor (Z.shiftr crc 1) crc64_poly
         else Z.shiftr crc 1)
  end.

Definition crc64_update (crc : Z) (b : byte) : Z :=
  crc64_bits 8 (Z.lxor crc (Z_of_byte b)).

Definition CalcCRC64 (bs : list byte) : Z := fold_left crc64_update bs 0.

Definition imports : Imports :=
  Build_Imports structure ParseObject CalcCRC64.

End plain.


(** ** Snapshots to run the loader on *)

Module sample.

Definition header : list byte := list_byte_of_string "REDIS0011".

(** [SelectDb(0)]. *)
Definition select0 : list byte := [xfe; x00].

(** A string value, key ["k"], value ["v"]. *)
Definition string_kv : list byte := [x00; x01; x6b; x01; x76].

Definition eof : list byte := [xff].

(** [ExpireAtMs(ms_stamp)] and [ExpireAtSeconds(s_stamp)]; the bytes
    of both timestamps read the same in either byte order. *)
Definition ms_stamp : Z := 0x0000000101000000.

Definition expire_ms : list byte :=
  [xfc; x00; x00; x00; x01; x01; x00; x00; x00].

Definition s_stamp : Z := 0x00010100.

Definition expire_s : list byte := [xfd; x00; x01; x01; x00].

(** [Idle(5)] and [Freq(7)]. *)
Definition idle5 : list byte := [xf8; x05].

Definition freq7 : list byte := [xf9; x07].

(** [Aux("lua", "return 1")] and [Aux("repl-stream-db", "3")]. *)
Definition aux_lua : list byte :=
  [xfa; x03] ++ list_byte_of_string "lua"
  ++ [x08] ++ list_byte_of_string "return 1".

Definition aux_repl3 : list byte :=
  [xfa; x0e] ++ list_byte_of_string "repl-stream-db"
  ++ [x01] ++ list_byte_of_string "3".

(** The record [string_kv] as the loader reads it, before [eof]. *)
Definition kv_record : ValueRecord :=
  mkValueRecord x00 "k"
    (types.Obj (types.mkStringObject "v" "k")) [x01; x76] eof.

(** A target of version 6.0 with the 512 MiB threshold, restoring
    without the replace modifier; the same with replace; a target of
    version 2.5 with replace; a threshold so low that every value is
    oversize, on the old target with replace. *)
Definition target6 : config.Config := config.mkConfig 536870912 "panic" 6.

Definition target6_rewrite : config.Config :=
  config.mkConfig 536870912 "rewrite" 6.

Definition target2_rewrite : config.Config :=
  config.mkConfig 536870912 "rewrite" 2.5.

Definition target2_rewrite_tiny : config.Config :=
  config.mkConfig 1 "rewrite" 2.5.

(** A target of version 2.5, restoring without the replace modifier. *)
Definition target2 : config.Config := config.mkConfig 536870912 "panic" 2.5.

(** A clock that stands at [t] ms, and one that stands at 1000 ms. *)
Definition clock_at (t : Z) : nat -> Z := fun _ => t.

Definition clock : nat -> Z := clock_at 1000.

Definition path : string := "dump.rdb".

(** A new loader about to read [bytes]. *)
Definition world (bytes : list byte) : World :=
  mkWorld (NewLoader path []) bytes 0.

(** A loader with an expiry of 9 ms, an idle time of 5 and a frequency
    of 7 pending, about to read [bytes]. *)
Definition pending_world (bytes : list byte) : World :=
  mkWorld (set_freq 7 (set_idle 5 (set_expireMs 9 (NewLoader path [])))) bytes 0.

(** A file system with the one file [path]. *)
Definition disk (contents : list byte) : string -> option (list byte) :=
  fun p => if String.eqb p path then Some contents else None.

End sample.

(** * Properties *)

(** ** Checks of the library models *)

Example FormatInt_0 : strconv.FormatInt 0 = "0".
Proof. reflexivity. Qed.

Example FormatInt_negative : strconv.FormatInt (-120) = "-120".
Proof. reflexivity. Qed.

Example Atoi_version : strconv.Atoi "0011" = (11, None).
Proof. reflexivity. Qed.

Example Atoi_signed : strconv.Atoi "-001" = (-1, None).
Proof. reflexivity. Qed.

Example Atoi_not_digit : strconv.Atoi "00a1" = (0, Some strconv.ErrSyntax).
Proof. reflexivity. Qed.

Example Atoi_sign_only : strconv.Atoi "+" = (0, Some strconv.ErrSyntax).
Proof. reflexivity. Qed.

Example Atoi_range :
  strconv.Atoi "9223372036854775808" = (2 ^ 63 - 1, Some strconv.ErrRange).
Proof. reflexivity. Qed.

Example Atoi_least : strconv.Atoi "-9223372036854775808" = (- 2 ^ 63, None).
Proof. reflexivity. Qed.

Example Atoi_range_negative :
  strconv.Atoi "-99999999999999999999" = (- 2 ^ 63, Some strconv.ErrRange).
Proof. reflexivity. Qed.

(** The range error comes before a later character is looked at. *)
Example Atoi_range_first :
  strconv.Atoi "99999999999999999999x" = (2 ^ 63 - 1, Some strconv.ErrRange).
Proof. reflexivity. Qed.

Example Atoi_syntax_first :
  strconv.Atoi "9x9999999999999999999" = (0, Some strconv.ErrSyntax).
Proof. reflexivity. Qed.

Example Atoi_empty : strconv.Atoi "" = (0, Some strconv.ErrSyntax).
Proof. reflexivity. Qed.

(** The check value of the Jones CRC-64. *)
Example CalcCRC64_check :
  plain.CalcCRC64 (list_byte_of_string "123456789") = 0xe9c6d914c4b8d9ca.
Proof. vm_compute. reflexivity. Qed.

(** ** Bytes and little-endian numbers *)

Lemma Z_of_byte_range (b : byte) : 0 <= Z_of_byte b < 256.
Proof.
  unfold Z_of_byte. pose proof (Byte.to_N_bounded b) as H. lia.
Qed.

Lemma Z_of_byte_of_Z (z : Z) : Z_of_byte (byte_of_Z z) = z mod 256.
Proof.
  assert (Hr : 0 <= z mod 256 < 256) by (apply Z.mod_pos_bound; lia).
  unfold Z_of_byte, byte_of_Z.
  destruct (Byte.of_N (Z.to_N (z mod 256))) as [b|] eqn:E.
  - apply Byte.to_of_N in E. rewrite E. apply Z2N.id. lia.
  - apply Byte.of_N_None_iff in E. lia.
Qed.

Lemma length_le_bytes (n : nat) : forall v, List.length (le_bytes n v) = n.
Proof.
  induction n as [|n IH]; intros v; simpl; [reflexivity|].
  now rewrite IH.
Qed.

Lemma le_value_le_bytes (n : nat) :
  forall v, le_value (le_bytes n v) = v mod 2 ^ (8 * Z.of_nat n).
Proof.
  induction n as [|n IH]; intros v.
  - simpl. now rewrite Z.mod_1_r.
  - cbn [le_bytes le_value]. rewrite IH, Z_of_byte_of_Z.
    rewrite Z.shiftl_mul_pow2, Z.shiftr_div_pow2 by lia.
    replace (8 * Z.of_nat (S n)) with (8 + 8 * Z.of_nat n) by lia.
    rewrite Z.pow_add_r by lia.
    change (2 ^ 8) with 256.
    rewrite Z.rem_mul_r by lia. lia.
Qed.

Lemma le_bytes_2_6 : le_bytes 2 6 = [x06; x00].
Proof. reflexivity. Qed.

Lemma uint64_range (z : Z) : 0 <= uint64 z < 2 ^ 64.
Proof. unfold uint64. apply Z.mod_pos_bound. lia. Qed.

Lemma uint64_idem (z : Z) : uint64 (uint64 z) = uint64 z.
Proof. unfold uint64. apply Z.mod_mod. lia. Qed.

(** ** The dump envelope *)

Section Envelope.

Context {I : Imports}.

Lemma createValueDump_eq (typeByte : byte) (val : list byte) (w : World) :
  createValueDump typeByte val w =
  (Ok (string_of_list_byte (DumpEnvelope typeByte val)),
   mkWorld (set_dumpBuffer (DumpEnvelope typeByte val) (ld w)) (rd w) (ticks w)).
Proof.
  unfold createValueDump, DumpEnvelope, bind, modify, gets, ret.
  cbn. rewrite <- !app_assoc. reflexivity.
Qed.

Lemma splitDump_DumpEnvelope (type_tag : byte) (payload : list byte) :
  splitDump (DumpEnvelope type_tag payload) =
  Some (type_tag, payload, 6,
        uint64 (CalcCRC64 ([type_tag] ++ payload ++ le_bytes 2 6))).
Proof.
  unfold DumpEnvelope.
  set (sum := uint64 (CalcCRC64 ([type_tag] ++ payload ++ le_bytes 2 6))).
  cbn [app splitDump]. rewrite <- !app_assoc.
  rewrite !length_app, !length_le_bytes.
  replace (List.length payload + (2 + 8))%nat
    with (10 + List.length payload)%nat by lia.
  destruct (Nat.ltb_spec (10 + List.length payload) 10) as [Hlt|_]; [lia|].
  replace (10 + List.length payload - 10)%nat
    with (List.length payload) by lia.
  rewrite firstn_app, skipn_app, firstn_all, skipn_all, Nat.sub_diag.
  rewrite firstn_O, skipn_O, app_nil_r. cbn [app].
  change (firstn 2 (le_bytes 2 6 ++ le_bytes 8 sum)) with (le_bytes 2 6).
  change (skipn 2 (le_bytes 2 6 ++ le_bytes 8 sum)) with (le_bytes 8 sum).
  rewrite !le_value_le_bytes.
  change (6 mod 2 ^ (8 * Z.of_nat 2)) with 6.
  change (2 ^ (8 * Z.of_nat 8)) with (2 ^ 64).
  fold (uint64 sum). unfold sum. rewrite uint64_idem. reflexivity.
Qed.

(** C2. [createValueDump] returns the type tag, the payload, the
    16-bit value 6 in little-endian order and the 64-bit checksum in
    little-endian order, one after the other; the checksum is that of
    the bytes before it, and splitting the result again gives back the
    payload and that checksum. *)
Theorem createValueDump_envelope (typeByte : byte) (val : list byte) (w : World) :
  let body := [typeByte] ++ val ++ [x06; x00] in
  let sum64 := uint64 (CalcCRC64 body) in
  fst (createValueDump typeByte val w)
    = Ok (string_of_list_byte (body ++ le_bytes 8 sum64))
  /\ List.length (le_bytes 8 sum64) = 8%nat
  /\ le_value (le_bytes 8 sum64) = sum64
  /\ forall v, fst (createValueDump typeByte val w) = Ok v ->
       splitDump (list_byte_of_string v) = Some (typeByte, val, 6, sum64).
Proof.
  intros body sum64. rewrite createValueDump_eq. cbn [fst].
  assert (Hd : DumpEnvelope typeByte val = body ++ le_bytes 8 sum64).
  { unfold DumpEnvelope, body, sum64. rewrite le_bytes_2_6.
    rewrite <- !app_assoc. reflexivity. }
  split; [|split; [|split]].
  - now rewrite Hd.
  - apply length_le_bytes.
  - rewrite le_value_le_bytes. apply uint64_idem.
  - intros v Hv. injection Hv as <-.
    rewrite list_byte_of_string_of_list_byte, splitDump_DumpEnvelope.
    reflexivity.
Qed.

(** C9. The envelope [createValueDump] returns depends on the type tag
    and the payload only, not on the loader it is called on: whatever
    the buffer held before is gone, and the buffer holds the returned
    envelope afterwards. *)
Theorem createValueDump_deterministic
    (typeByte : byte) (val : list byte) (w1 w2 : World) :
  fst (createValueDump typeByte val w1) = fst (createValueDump typeByte val w2)
  /\ (forall v, fst (createValueDump typeByte val w1) = Ok v ->
        dumpBuffer (ld (snd (createValueDump typeByte val w1)))
          = list_byte_of_string v)
  /\ fst (createValueDump typeByte val
            (snd (createValueDump typeByte val w1)))
     = fst (createValueDump typeByte val w1).
Proof.
  rewrite !createValueDump_eq. cbn [fst snd ld dumpBuffer set_dumpBuffer].
  split; [reflexivity|split; [|reflexivity]].
  intros v Hv. injection Hv as <-.
  now rewrite list_byte_of_string_of_list_byte.
Qed.

End Envelope.

(** ** The loop returns *)

Lemma Tame_ret {A : Type} (a : A) : Tame (ret a).
Proof. intros w r w' H. inversion H; subst. split; [discriminate|lia]. Qed.

Lemma Tame_panic {A : Type} (e : PanicMsg) : Tame (panic (A := A) e).
Proof. intros w r w' H. inversion H; subst. split; [discriminate|lia]. Qed.

Lemma Tame_gets {A : Type} (f : Loader -> A) : Tame (gets f).
Proof. intros w r w' H. inversion H; subst. split; [discriminate|lia]. Qed.

Lemma Tame_modify (f : Loader -> Loader) : Tame (modify f).
Proof. intros w r w' H. inversion H; subst. split; [discriminate|simpl; lia]. Qed.

Lemma Tame_send (e : entry.Entry) : Tame (send e).
Proof. apply Tame_modify. Qed.

Lemma Tame_UnixMilli (clock : nat -> Z) : Tame (UnixMilli clock).
Proof. intros w r w' H. inversion H; subst. split; [discriminate|simpl; lia]. Qed.

Lemma Tame_read {A : Type} (f : Reader A) : Tame (read f).
Proof.
  intros w r w' H. unfold read in H.
  destruct (f (rd w)) as [[a n]|]; inversion H; subst; simpl;
    (split; [discriminate|]); rewrite ?length_skipn; lia.
Qed.

Lemma Tame_teeRead {A : Type} (f : Reader A) : Tame (teeRead f).
Proof.
  intros w r w' H. unfold teeRead in H.
  destruct (f (rd w)) as [[a n]|]; inversion H; subst; simpl;
    (split; [discriminate|]); rewrite ?length_skipn; lia.
Qed.

Lemma Tame_bind {A B : Type} (c : M A) (k : A -> M B) :
  Tame c -> (forall a, Tame (k a)) -> Tame (bind c k).
Proof.
  intros Hc Hk w r w' H. unfold bind in H.
  destruct (c w) as [[a| e |] w1] eqn:E; destruct (Hc _ _ _ E) as [Hne Hle].
  - destruct (Hk a _ _ _ H) as [Hne' Hle']. split; [assumption|lia].
  - inversion H; subst. split; [discriminate|assumption].
  - congruence.
Qed.

Lemma Tame_forEach {A : Type} (xs : list A) (body : A -> M unit) :
  (forall x, Tame (body x)) -> Tame (forEach xs body).
Proof.
  intros Hb. induction xs as [|x xs IH]; cbn [forEach].
  - apply Tame_ret.
  - apply Tame_bind; [apply Hb | intros _; apply IH].
Qed.

Create HintDb tame.
#[local] Hint Resolve Tame_ret Tame_panic Tame_gets Tame_modify Tame_send
  Tame_UnixMilli Tame_read Tame_teeRead : tame.

(** Takes a tame computation apart along its binds and branches. *)
Ltac tame :=
  repeat first
    [ progress auto with tame
    | apply Tame_bind
    | apply Tame_forEach
    | progress cbv beta zeta
    | match goal with
      | |- Tame (if ?b then _ else _) => destruct b
      | |- Tame (match ?x with _ => _ end) => destruct x
      | |- forall _, _ => intro
      end ].

Section Termination.

Context {I : Imports}.
Variable Config : config.Config.
Variable clock : nat -> Z.

Lemma Tame_createValueDump (typeByte : byte) (val : list byte) :
  Tame (createValueDump typeByte val).
Proof. unfold createValueDump. tame. Qed.

Lemma Tame_parseValue (typeByte : byte) :
  Tame (parseValue Config typeByte).
Proof.
  unfold parseValue. pose proof Tame_createValueDump. tame.
Qed.

Lemma Tame_switch (typeByte : byte) :
  Tame (parseRDBEntry_switch Config clock typeByte).
Proof.
  unfold parseRDBEntry_switch. pose proof Tame_parseValue. tame.
Qed.

Lemma Tame_turn : Tame (parseRDBEntry_turn Config clock).
Proof.
  unfold parseRDBEntry_turn. pose proof Tame_switch. tame.
Qed.

(** A turn starts by taking the opcode byte off [rd]. *)
Lemma turn_switch (w : World) (typeByte : byte) (rest : list byte) :
  rd w = typeByte :: rest ->
  parseRDBEntry_turn Config clock w =
  parseRDBEntry_switch Config clock typeByte (mkWorld (ld w) rest (ticks w)).
Proof.
  intros Hrd. unfold parseRDBEntry_turn, bind, read, structure.ReadByte.
  rewrite Hrd. reflexivity.
Qed.

Lemma turn_exhausted (w : World) :
  rd w = [] -> parseRDBEntry_turn Config clock w = (Panic ReadFailed, w).
Proof.
  intros Hrd. unfold parseRDBEntry_turn, bind, read, structure.ReadByte.
  rewrite Hrd. reflexivity.
Qed.

(** A turn that does not panic has taken its opcode byte off [rd]. *)
Lemma turn_consumes (w w' : World) (c : Flow) :
  parseRDBEntry_turn Config clock w = (Ok c, w') ->
  (List.length (rd w') < List.length (rd w))%nat.
Proof.
  destruct (rd w) as [|b rest] eqn:Hrd.
  - rewrite (turn_exhausted w Hrd). discriminate.
  - rewrite (turn_switch w b rest Hrd). intros H.
    apply Tame_switch in H. cbn [rd List.length] in *. lia.
Qed.

Lemma loop_returns (fuel : nat) :
  forall w, (List.length (rd w) < fuel)%nat ->
    fst (parseRDBEntry_loop Config clock fuel w) <> OutOfFuel.
Proof.
  induction fuel as [|k IH]; intros w Hlen; [lia|].
  cbn [parseRDBEntry_loop].
  destruct (parseRDBEntry_turn Config clock w) as [[[|]|e|] w1] eqn:E.
  - apply IH. apply turn_consumes in E. lia.
  - discriminate.
  - discriminate.
  - destruct (Tame_turn _ _ _ E) as [Hne _]. congruence.
Qed.

(** The loop of [parseRDBEntry] ends, with [Ok] or with a panic, on
    every input. *)
Lemma parseRDBEntry_returns (w : World) :
  fst (parseRDBEntry Config clock w) <> OutOfFuel.
Proof. unfold parseRDBEntry. apply loop_returns. lia. Qed.

Lemma loop_fuel (f1 : nat) :
  forall f2 w,
    (List.length (rd w) < f1)%nat -> (List.length (rd w) < f2)%nat ->
    parseRDBEntry_loop Config clock f1 w = parseRDBEntry_loop Config clock f2 w.
Proof.
  induction f1 as [|k IH]; intros f2 w H1 H2; [lia|].
  destruct f2 as [|k2]; [lia|].
  cbn [parseRDBEntry_loop].
  destruct (parseRDBEntry_turn Config clock w) as [[[|]|e|] w1] eqn:E;
    try reflexivity.
  apply turn_consumes in E. apply IH; lia.
Qed.

(** The loop, one turn at a time. *)
Lemma parseRDBEntry_unfold (w : World) :
  parseRDBEntry Config clock w =
  match parseRDBEntry_turn Config clock w with
  | (Ok Continue, w') => parseRDBEntry Config clock w'
  | (Ok Return, w') => (Ok tt, w')
  | (Panic e, w') => (Panic e, w')
  | (OutOfFuel, w') => (OutOfFuel, w')
  end.
Proof.
  unfold parseRDBEntry at 1. cbn [parseRDBEntry_loop].
  destruct (parseRDBEntry_turn Config clock w) as [[[|]|e|] w1] eqn:E;
    try reflexivity.
  apply turn_consumes in E. unfold parseRDBEntry. apply loop_fuel; lia.
Qed.

End Termination.

(** ** One turn of the loop *)

Section Dispatch.

Context {I : Imports}.
Variable Config : config.Config.
Variable clock : nat -> Z.

Lemma set_ch_same (l : Loader) : set_ch (ch l) l = l.
Proof. destruct l; reflexivity. Qed.

Lemma forEach_send (cmds : list types.RedisCmd) :
  forall w,
    forEach cmds (fun cmd =>
      db <- gets nowDBId ;;
      send {| entry.IsBase := true; entry.DbId := db; entry.Argv := cmd |}) w
    = (Ok tt,
       mkWorld (set_ch (ch (ld w)
                        ++ map (fun cmd => entry.mkEntry (nowDBId (ld w)) cmd true) cmds)
                  (ld w))
               (rd w) (ticks w)).
Proof.
  induction cmds as [|cmd cmds IH]; intros [l r t].
  - cbn. now rewrite app_nil_r, set_ch_same.
  - cbn [forEach]. unfold bind at 1. unfold bind at 1.
    cbn [gets send modify ld rd ticks]. rewrite IH.
    cbn [ld rd ticks set_ch ch nowDBId map]. rewrite <- app_assoc.
    reflexivity.
Qed.

Lemma switch_value (typeByte : byte) :
  isOpcode typeByte = false ->
  parseRDBEntry_switch Config clock typeByte = parseValue Config typeByte.
Proof.
  unfold isOpcode. cbn [existsb]. intros H.
  repeat (apply orb_false_iff in H as [? H]).
  unfold parseRDBEntry_switch.
  repeat match goal with E : Byte.eqb _ _ = false |- _ => rewrite E; clear E end.
  reflexivity.
Qed.

(** What [nextValue] says of the two reads of a value record. *)
Lemma nextValue_inv (r : list byte) (v : ValueRecord) :
  nextValue r = Some v ->
  exists rest n1 n2,
    r = vr_typeByte v :: rest
    /\ isOpcode (vr_typeByte v) = false
    /\ ReadString rest = Some (vr_key v, n1)
    /\ ParseObject (skipn n1 rest) (vr_typeByte v) (vr_key v)
       = Some (vr_object v, n2)
    /\ vr_payload v = firstn n2 (skipn n1 rest)
    /\ vr_rest v = skipn n2 (skipn n1 rest).
Proof.
  unfold nextValue. destruct r as [|t rest]; [discriminate|].
  destruct (isOpcode t) eqn:Hop; [discriminate|].
  destruct (ReadString rest) as [[key n1]|] eqn:Hk; [|discriminate].
  destruct (ParseObject (skipn n1 rest) t key) as [[o n2]|] eqn:Ho;
    [|discriminate].
  intros H. injection H as <-. cbn.
  exists rest, n1, n2. repeat split; assumption.
Qed.

(** The oversize path. *)
Lemma turn_oversize (w : World) (v : ValueRecord) :
  nextValue (rd w) = Some v ->
  oversize Config v = true ->
  parseRDBEntry_turn Config clock w =
  (Ok Continue,
   mkWorld (resetPending
              (set_ch (ch (ld w) ++ rewriteEntries (ld w) (vr_object v) (vr_key v))
                      (ld w)))
           (vr_rest v) (ticks w)).
Proof.
  intros Hv Hover.
  destruct (nextValue_inv _ _ Hv) as (rest & n1 & n2 & Hrd & Hop & Hk & Ho & Hp & Hr).
  rewrite (turn_switch Config clock w _ _ Hrd), (switch_value _ Hop).
  unfold oversize in Hover. rewrite Hp in Hover. rewrite Hr.
  unfold parseValue, bind, read, teeRead. cbn [rd ld ticks].
  rewrite Hk. cbn [rd ld ticks]. rewrite Ho. cbn [fst snd rd ld ticks].
  rewrite Hover, forEach_send.
  unfold rewriteEntries, resetPending, gets, modify, send, ret.
  destruct (ld w) as [rs db ex id fr fp c buf]. cbn.
  destruct (ex =? 0); cbn.
  - now rewrite app_nil_r.
  - now rewrite <- app_assoc.
Qed.

(** The normal path when the replace modifier is asked for and the
    target is older than 3.0. *)
Lemma turn_replace_panic (w : World) (v : ValueRecord) :
  nextValue (rd w) = Some v ->
  oversize Config v = false ->
  rewriteOnRestore Config = true ->
  PrimFloat.ltb (config.Version Config) 3 = true ->
  parseRDBEntry_turn Config clock w =
  (Panic ReplaceNotSupported,
   mkWorld (set_dumpBuffer (DumpEnvelope (vr_typeByte v) (vr_payload v)) (ld w))
           (vr_rest v) (ticks w)).
Proof.
  intros Hv Hover Hrw Hold.
  destruct (nextValue_inv _ _ Hv) as (rest & n1 & n2 & Hrd & Hop & Hk & Ho & Hp & Hr).
  rewrite (turn_switch Config clock w _ _ Hrd), (switch_value _ Hop).
  unfold oversize in Hover. rewrite Hp in Hover. rewrite Hr, Hp.
  unfold rewriteOnRestore in Hrw.
  unfold parseValue, bind, read, teeRead. cbn [rd ld ticks].
  rewrite Hk. cbn [rd ld ticks]. rewrite Ho. cbn [fst snd rd ld ticks].
  rewrite Hover. cbn [gets]. rewrite createValueDump_eq.
  cbn [ld rd ticks]. rewrite Hrw, Hold. reflexivity.
Qed.

(** The normal path otherwise. *)
Lemma turn_restore (w : World) (v : ValueRecord) :
  nextValue (rd w) = Some v ->
  oversize Config v = false ->
  rewriteOnRestore Config && PrimFloat.ltb (config.Version Config) 3 = false ->
  let dump := DumpEnvelope (vr_typeByte v) (vr_payload v) in
  parseRDBEntry_turn Config clock w =
  (Ok Continue,
   mkWorld (resetPending
              (set_ch (ch (ld w)
                       ++ [entry.mkEntry (nowDBId (ld w))
                             (restoreArgv Config (ld w) (vr_key v)
                                (string_of_list_byte dump))
                             true])
                      (set_dumpBuffer dump (ld w))))
           (vr_rest v) (ticks w)).
Proof.
  intros Hv Hover Hcfg dump.
  destruct (nextValue_inv _ _ Hv) as (rest & n1 & n2 & Hrd & Hop & Hk & Ho & Hp & Hr).
  rewrite (turn_switch Config clock w _ _ Hrd), (switch_value _ Hop).
  unfold oversize in Hover. rewrite Hp in Hover. subst dump. rewrite Hr, Hp.
  unfold restoreArgv. unfold rewriteOnRestore in *.
  unfold parseValue, bind, read, teeRead. cbn [rd ld ticks].
  rewrite Hk. cbn [rd ld ticks]. rewrite Ho. cbn [fst snd rd ld ticks].
  rewrite Hover. cbn [gets]. rewrite createValueDump_eq.
  cbn [ld rd ticks].
  unfold resetPending, gets, modify, send, ret.
  destruct (ld w) as [rs db ex id fr fp c buf]. cbn.
  destruct (String.eqb (config.RDBRestoreCommandBehavior Config) "rewrite");
    cbn in Hcfg |- *; [rewrite Hcfg; cbn|];
    destruct (negb (id =? 0) && PrimFloat.leb 5 (config.Version Config));
    destruct (negb (fr =? 0) && PrimFloat.leb 5 (config.Version Config));
    cbn; rewrite <- ?app_assoc; reflexivity.
Qed.

End Dispatch.

(** ** Metadata opcodes *)

Lemma Quiet_ret {A : Type} (P : A -> Prop) (a : A) : P a -> Quiet P (ret a).
Proof.
  intros Ha w r w' H. inversion H; subst. repeat split. right. now exists a.
Qed.

Lemma Quiet_read {A : Type} (f : Reader A) : Quiet anything (read f).
Proof.
  intros w r w' H. unfold read in H.
  destruct (f (rd w)) as [[a n]|]; inversion H; subst; cbn; repeat split.
  - right. now exists a.
  - now left.
Qed.

Lemma Quiet_UnixMilli (clock : nat -> Z) : Quiet anything (UnixMilli clock).
Proof.
  intros w r w' H. inversion H; subst. cbn. repeat split.
  right. eexists. now split.
Qed.

Lemma Quiet_modify (f : Loader -> Loader) :
  (forall l, ch (f l) = ch l) ->
  (forall l, replStreamDbId (f l) = replStreamDbId l) ->
  Quiet anything (modify f).
Proof.
  intros Hc Hr w r w' H. inversion H; subst. cbn.
  split; [apply Hc|split; [apply Hr|]]. right. now exists tt.
Qed.

Lemma Quiet_bind {A B : Type} (P : A -> Prop) (Q : B -> Prop)
    (c : M A) (k : A -> M B) :
  Quiet P c -> (forall a, Quiet Q (k a)) -> Quiet Q (bind c k).
Proof.
  intros Hc Hk w r w' H. unfold bind in H.
  destruct (c w) as [[a| e |] w1] eqn:E;
    destruct (Hc _ _ _ E) as (Hch & Hrs & Hres).
  - destruct (Hk a _ _ _ H) as (Hch' & Hrs' & Hres').
    split; [congruence|split; [congruence|assumption]].
  - inversion H; subst. split; [assumption|split; [assumption|]].
    destruct Hres as [Hres|[a [Hres _]]]; [left; congruence|discriminate].
  - destruct Hres as [Hres|[a [Hres _]]]; discriminate.
Qed.

(** Takes a quiet computation apart along its binds and branches. *)
Ltac quiet :=
  repeat first
    [ apply Quiet_ret; reflexivity
    | apply Quiet_read
    | apply Quiet_UnixMilli
    | apply Quiet_modify; intros []; reflexivity
    | eapply Quiet_bind
    | progress cbv beta zeta
    | match goal with
      | |- Quiet _ (if ?b then _ else _) => destruct b
      | |- forall _, _ => intro
      end ].

(** Decides the tests of the switch on a known opcode. *)
Ltac switch_on op :=
  unfold parseRDBEntry_switch;
  repeat match goal with
    | |- context [Byte.eqb op ?b] =>
        let r := eval vm_compute in (Byte.eqb op b) in
        change (Byte.eqb op b) with r
    end;
  cbv iota.

Section Metadata.

Context {I : Imports}.
Variable Config : config.Config.
Variable clock : nat -> Z.

(** The metadata opcodes other than [Aux]. *)
Lemma switch_quiet (typeByte : byte) :
  isMetadata typeByte = true ->
  typeByte <> kFlagAUX ->
  Quiet (eq Continue) (parseRDBEntry_switch Config clock typeByte).
Proof.
  unfold isMetadata. cbn [existsb]. intros H Haux.
  repeat (apply orb_prop in H as [H|H]);
    try discriminate H;
    apply Byte.byte_dec_bl in H; subst typeByte;
    try (exfalso; apply Haux; reflexivity);
    match goal with |- Quiet _ (_ _ _ ?op) => switch_on op end;
    quiet.
Qed.

End Metadata.

(** ** The other turns *)

Section Turns.

Context {I : Imports}.
Variable Config : config.Config.
Variable clock : nat -> Z.

Lemma turn_eof (w : World) (rest : list byte) :
  rd w = kEOF :: rest ->
  parseRDBEntry_turn Config clock w = (Ok Return, mkWorld (ld w) rest (ticks w)).
Proof.
  intros Hrd. rewrite (turn_switch Config clock w _ _ Hrd). reflexivity.
Qed.

(** An [Aux] record. *)
Lemma turn_aux (w : World) (key value : string) (rest : list byte) :
  nextAux (rd w) = Some (key, value, rest) ->
  parseRDBEntry_turn Config clock w =
  if String.eqb key "repl-stream-db" then
    (match snd (strconv.Atoi value) with
     | Some _ => Panic InvalidReplStreamDb
     | None => Ok Continue
     end,
     mkWorld (set_replStreamDbId (fst (strconv.Atoi value)) (ld w)) rest (ticks w))
  else if String.eqb key "lua" then
    (Ok Continue,
     mkWorld (set_ch (ch (ld w) ++ [entry.mkEntry 0 ["script"; "load"; value] true])
                     (ld w))
             rest (ticks w))
  else (Ok Continue, mkWorld (ld w) rest (ticks w)).
Proof.
  unfold nextAux. destruct (rd w) as [|t r0] eqn:Hrd; [discriminate|].
  destruct (Byte.eqb t kFlagAUX) eqn:Ht; [|discriminate].
  apply Byte.byte_dec_bl in Ht. subst t.
  destruct (ReadString r0) as [[k n1]|] eqn:Hk; [|discriminate].
  destruct (ReadString (skipn n1 r0)) as [[v n2]|] eqn:Hv; [|discriminate].
  intros H. injection H as <- <- <-.
  rewrite (turn_switch Config clock w _ _ Hrd).
  switch_on kFlagAUX.
  unfold bind, read. cbn [rd ld ticks]. rewrite Hk. cbn [rd ld ticks].
  rewrite Hv. cbn [rd ld ticks].
  destruct (String.eqb k "repl-stream-db").
  - destruct (strconv.Atoi v) as [n [e|]]; reflexivity.
  - destruct (String.eqb k "lua"); reflexivity.
Qed.

Lemma turn_aux_failed (w : World) (rest : list byte) :
  rd w = kFlagAUX :: rest ->
  nextAux (rd w) = None ->
  fst (parseRDBEntry_turn Config clock w) = Panic ReadFailed
  /\ ld (snd (parseRDBEntry_turn Config clock w)) = ld w.
Proof.
  intros Hrd. rewrite (turn_switch Config clock w _ _ Hrd).
  unfold nextAux. rewrite Hrd. cbn [Byte.eqb kFlagAUX].
  switch_on kFlagAUX.
  unfold bind, read. cbn [rd ld ticks].
  destruct (ReadString rest) as [[k n1]|] eqn:Hk; [|now split].
  cbn [rd ld ticks].
  destruct (ReadString (skipn n1 rest)) as [[v n2]|] eqn:Hv;
    [discriminate|now split].
Qed.

Lemma turn_value_failed (w : World) (typeByte : byte) (rest : list byte) :
  rd w = typeByte :: rest ->
  isOpcode typeByte = false ->
  nextValue (rd w) = None ->
  fst (parseRDBEntry_turn Config clock w) = Panic ReadFailed
  /\ ld (snd (parseRDBEntry_turn Config clock w)) = ld w.
Proof.
  intros Hrd Hop. rewrite (turn_switch Config clock w _ _ Hrd).
  rewrite (switch_value Config clock _ Hop).
  unfold nextValue. rewrite Hrd, Hop.
  unfold parseValue, bind, read, teeRead. cbn [rd ld ticks].
  destruct (ReadString rest) as [[k n1]|] eqn:Hk; [|now split].
  cbn [rd ld ticks].
  destruct (ParseObject (skipn n1 rest) typeByte k) as [[o n2]|] eqn:Ho;
    [discriminate|now split].
Qed.

Lemma turn_expire_ms (w : World) (rest : list byte) (at_ : Z) (n : nat) :
  rd w = kFlagExpireMs :: rest ->
  ReadUint64 rest = Some (at_, n) ->
  parseRDBEntry_turn Config clock w =
  (Ok Continue,
   mkWorld
     (set_expireMs
        (clamp (int64 (int64 (uint64 at_) - int64 (clock (ticks w))))) (ld w))
     (skipn n rest) (S (ticks w))).
Proof.
  intros Hrd Hat. rewrite (turn_switch Config clock w _ _ Hrd).
  switch_on kFlagExpireMs.
  unfold bind, read. cbn [rd ld ticks]. rewrite Hat.
  cbn [UnixMilli rd ld ticks]. unfold clamp.
  destruct (int64 (int64 (uint64 at_) - int64 (clock (ticks w))) <? 0);
    reflexivity.
Qed.

Lemma turn_expire (w : World) (rest : list byte) (at_ : Z) (n : nat) :
  rd w = kFlagExpire :: rest ->
  ReadUint32 rest = Some (at_, n) ->
  parseRDBEntry_turn Config clock w =
  (Ok Continue,
   mkWorld
     (set_expireMs
        (clamp (int64 (int64 (uint32 at_ * 1000) - int64 (clock (ticks w)))))
        (ld w))
     (skipn n rest) (S (ticks w))).
Proof.
  intros Hrd Hat. rewrite (turn_switch Config clock w _ _ Hrd).
  switch_on kFlagExpire.
  unfold bind, read. cbn [rd ld ticks]. rewrite Hat.
  cbn [UnixMilli rd ld ticks]. unfold clamp.
  destruct (int64 (int64 (uint32 at_ * 1000) - int64 (clock (ticks w))) <? 0);
    reflexivity.
Qed.

Lemma clamp_spec (e : Z) :
  (e < 0 -> clamp e = 1) /\ (0 <= e -> clamp e = e).
Proof.
  unfold clamp. destruct (Z.ltb_spec e 0); split; intros; (lia || reflexivity).
Qed.

(** A timestamp equal to the clock reading leaves the pending expiry at
    0. *)
Lemma expire_ms_at_now (w : World) (rest : list byte) (at_ : Z) (n : nat) :
  rd w = kFlagExpireMs :: rest ->
  ReadUint64 rest = Some (at_, n) ->
  int64 (uint64 at_) = int64 (clock (ticks w)) ->
  expireMs (ld (snd (parseRDBEntry_turn Config clock w))) = 0.
Proof.
  intros Hrd Hat Hnow. rewrite (turn_expire_ms w rest at_ n Hrd Hat), Hnow.
  rewrite Z.sub_diag. reflexivity.
Qed.

Lemma expire_at_now (w : World) (rest : list byte) (at_ : Z) (n : nat) :
  rd w = kFlagExpire :: rest ->
  ReadUint32 rest = Some (at_, n) ->
  int64 (uint32 at_ * 1000) = int64 (clock (ticks w)) ->
  expireMs (ld (snd (parseRDBEntry_turn Config clock w))) = 0.
Proof.
  intros Hrd Hat Hnow. rewrite (turn_expire w rest at_ n Hrd Hat), Hnow.
  rewrite Z.sub_diag. reflexivity.
Qed.

Lemma turn_select (w : World) (rest : list byte) (n : Z) (k : nat) :
  rd w = kFlagSelect :: rest ->
  ReadLength rest = Some (n, k) ->
  parseRDBEntry_turn Config clock w =
  (Ok Continue,
   mkWorld (set_nowDBId (int64 (uint64 n)) (ld w)) (skipn k rest) (ticks w)).
Proof.
  intros Hrd Hn. rewrite (turn_switch Config clock w _ _ Hrd).
  switch_on kFlagSelect.
  unfold bind, read. cbn [rd ld ticks]. rewrite Hn. reflexivity.
Qed.

(** The metadata opcodes other than [Aux], each with its reads: the turn
    continues when they succeed and panics at the first that fails. *)
Lemma turn_idle_cases (w : World) (rest : list byte) :
  rd w = kFlagIdle :: rest ->
  parseRDBEntry_turn Config clock w =
  match ReadLength rest with
  | Some (n, k) =>
      (Ok Continue,
       mkWorld (set_idle (int64 (uint64 n)) (ld w)) (skipn k rest) (ticks w))
  | None => (Panic ReadFailed, mkWorld (ld w) rest (ticks w))
  end.
Proof.
  intros Hrd. rewrite (turn_switch Config clock w _ _ Hrd).
  switch_on kFlagIdle. unfold bind, read. cbn [rd ld ticks].
  destruct (ReadLength rest) as [[n k]|]; reflexivity.
Qed.

Lemma turn_freq_cases (w : World) (rest : list byte) :
  rd w = kFlagFreq :: rest ->
  parseRDBEntry_turn Config clock w =
  match rest with
  | b :: rest' =>
      (Ok Continue, mkWorld (set_freq (Z_of_byte b) (ld w)) rest' (ticks w))
  | [] => (Panic ReadFailed, mkWorld (ld w) [] (ticks w))
  end.
Proof.
  intros Hrd. rewrite (turn_switch Config clock w _ _ Hrd).
  switch_on kFlagFreq. unfold bind, read, structure.ReadByte. cbn [rd ld ticks].
  destruct rest as [|b rest']; reflexivity.
Qed.

Lemma turn_resize_cases (w : World) (rest : list byte) :
  rd w = kFlagResizeDB :: rest ->
  parseRDBEntry_turn Config clock w =
  match ReadLength rest with
  | Some (_, k1) =>
      match ReadLength (skipn k1 rest) with
      | Some (_, k2) =>
          (Ok Continue, mkWorld (ld w) (skipn k2 (skipn k1 rest)) (ticks w))
      | None => (Panic ReadFailed, mkWorld (ld w) (skipn k1 rest) (ticks w))
      end
  | None => (Panic ReadFailed, mkWorld (ld w) rest (ticks w))
  end.
Proof.
  intros Hrd. rewrite (turn_switch Config clock w _ _ Hrd).
  switch_on kFlagResizeDB. unfold bind, read. cbn [rd ld ticks].
  destruct (ReadLength rest) as [[n1 k1]|]; [|reflexivity].
  cbn [rd ld ticks].
  destruct (ReadLength (skipn k1 rest)) as [[n2 k2]|]; reflexivity.
Qed.

Lemma turn_select_cases (w : World) (rest : list byte) :
  rd w = kFlagSelect :: rest ->
  parseRDBEntry_turn Config clock w =
  match ReadLength rest with
  | Some (n, k) =>
      (Ok Continue,
       mkWorld (set_nowDBId (int64 (uint64 n)) (ld w)) (skipn k rest) (ticks w))
  | None => (Panic ReadFailed, mkWorld (ld w) rest (ticks w))
  end.
Proof.
  intros Hrd. rewrite (turn_switch Config clock w _ _ Hrd).
  switch_on kFlagSelect. unfold bind, read. cbn [rd ld ticks].
  destruct (ReadLength rest) as [[n k]|]; reflexivity.
Qed.

Lemma turn_expire_ms_cases (w : World) (rest : list byte) :
  rd w = kFlagExpireMs :: rest ->
  parseRDBEntry_turn Config clock w =
  match ReadUint64 rest with
  | Some (at_, k) =>
      (Ok Continue,
       mkWorld
         (set_expireMs
            (clamp (int64 (int64 (uint64 at_) - int64 (clock (ticks w))))) (ld w))
         (skipn k rest) (S (ticks w)))
  | None => (Panic ReadFailed, mkWorld (ld w) rest (ticks w))
  end.
Proof.
  intros Hrd. destruct (ReadUint64 rest) as [[at_ k]|] eqn:Hat.
  - now apply turn_expire_ms.
  - rewrite (turn_switch Config clock w _ _ Hrd).
    switch_on kFlagExpireMs. unfold bind, read. cbn [rd ld ticks].
    rewrite Hat. reflexivity.
Qed.

Lemma turn_expire_cases (w : World) (rest : list byte) :
  rd w = kFlagExpire :: rest ->
  parseRDBEntry_turn Config clock w =
  match ReadUint32 rest with
  | Some (at_, k) =>
      (Ok Continue,
       mkWorld
         (set_expireMs
            (clamp (int64 (int64 (uint32 at_ * 1000) - int64 (clock (ticks w)))))
            (ld w))
         (skipn k rest) (S (ticks w)))
  | None => (Panic ReadFailed, mkWorld (ld w) rest (ticks w))
  end.
Proof.
  intros Hrd. destruct (ReadUint32 rest) as [[at_ k]|] eqn:Hat.
  - now apply turn_expire.
  - rewrite (turn_switch Config clock w _ _ Hrd).
    switch_on kFlagExpire. unfold bind, read. cbn [rd ld ticks].
    rewrite Hat. reflexivity.
Qed.

Lemma isMetadata_cases (b : byte) :
  isMetadata b = true ->
  b = kFlagIdle \/ b = kFlagFreq \/ b = kFlagAUX \/ b = kFlagResizeDB
  \/ b = kFlagExpireMs \/ b = kFlagExpire \/ b = kFlagSelect.
Proof.
  unfold isMetadata. cbn [existsb]. intros H.
  repeat (apply orb_prop in H as [H|H]); try discriminate H;
    apply Byte.byte_dec_bl in H; subst b; tauto.
Qed.

End Turns.

(** ** Every turn, by cases *)

Section Cases.

Context {I : Imports}.
Variable Config : config.Config.
Variable clock : nat -> Z.

Lemma isOpcode_cases (b : byte) :
  isOpcode b = true ->
  b = kEOF \/ b = kFlagAUX \/ (isMetadata b = true /\ b <> kFlagAUX).
Proof.
  unfold isOpcode. cbn [existsb]. intros H.
  repeat (apply orb_prop in H as [H|H]); try discriminate H;
    apply Byte.byte_dec_bl in H; subst b;
    auto; right; right; split; (reflexivity || discriminate).
Qed.

Lemma isMetadata_isOpcode (b : byte) :
  isMetadata b = true -> isOpcode b = true /\ b <> kEOF.
Proof.
  unfold isMetadata. cbn [existsb]. intros H.
  repeat (apply orb_prop in H as [H|H]); try discriminate H;
    apply Byte.byte_dec_bl in H; subst b; split;
    (reflexivity || discriminate).
Qed.

(** The four ways a turn on a value record ends. *)
Lemma turn_value_cases (w : World) (typeByte : byte) (rest : list byte) :
  rd w = typeByte :: rest ->
  isOpcode typeByte = false ->
  (nextValue (rd w) = None
   /\ fst (parseRDBEntry_turn Config clock w) = Panic ReadFailed
   /\ ld (snd (parseRDBEntry_turn Config clock w)) = ld w)
  \/ (exists v,
        nextValue (rd w) = Some v /\ oversize Config v = true
        /\ parseRDBEntry_turn Config clock w =
           (Ok Continue,
            mkWorld (resetPending
                       (set_ch (ch (ld w)
                                ++ rewriteEntries (ld w) (vr_object v) (vr_key v))
                               (ld w)))
                    (vr_rest v) (ticks w)))
  \/ (exists v,
        nextValue (rd w) = Some v /\ oversize Config v = false
        /\ rewriteOnRestore Config && PrimFloat.ltb (config.Version Config) 3 = false
        /\ parseRDBEntry_turn Config clock w =
           (Ok Continue,
            mkWorld (resetPending
                       (set_ch (ch (ld w)
                                ++ [entry.mkEntry (nowDBId (ld w))
                                      (restoreArgv Config (ld w) (vr_key v)
                                         (string_of_list_byte
                                            (DumpEnvelope (vr_typeByte v)
                                               (vr_payload v))))
                                      true])
                               (set_dumpBuffer
                                  (DumpEnvelope (vr_typeByte v) (vr_payload v))
                                  (ld w))))
                    (vr_rest v) (ticks w)))
  \/ (exists v,
        nextValue (rd w) = Some v /\ oversize Config v = false
        /\ rewriteOnRestore Config = true
        /\ PrimFloat.ltb (config.Version Config) 3 = true
        /\ parseRDBEntry_turn Config clock w =
           (Panic ReplaceNotSupported,
            mkWorld (set_dumpBuffer
                       (DumpEnvelope (vr_typeByte v) (vr_payload v)) (ld w))
                    (vr_rest v) (ticks w))).
Proof.
  intros Hrd Hop.
  destruct (nextValue (rd w)) as [v|] eqn:Hv.
  - right. destruct (oversize Config v) eqn:Hover.
    + left. exists v. repeat split; try assumption. now apply turn_oversize.
    + right.
      destruct (rewriteOnRestore Config && PrimFloat.ltb (config.Version Config) 3)
        eqn:Hcfg.
      * right. apply andb_prop in Hcfg as [Hrw Hold]. exists v.
        repeat split; try assumption. now apply turn_replace_panic.
      * left. exists v. repeat split; try assumption. now apply turn_restore.
  - left. split; [reflexivity|].
    now apply (turn_value_failed Config clock w typeByte rest).
Qed.

(** A turn that does not panic changes [replStreamDbId] only on an
    [Aux] record with the key ["repl-stream-db"]. *)
Lemma turn_keeps_replStreamDbId (w w' : World) (c : Flow) :
  parseRDBEntry_turn Config clock w = (Ok c, w') ->
  replRecord (rd w) = false ->
  replStreamDbId (ld w') = replStreamDbId (ld w).
Proof.
  intros H Hrepl.
  destruct (rd w) as [|b rest] eqn:Hrd.
  { rewrite (turn_exhausted Config clock w Hrd) in H. discriminate. }
  destruct (isOpcode b) eqn:Hop.
  - destruct (isOpcode_cases b Hop) as [->|[->|[Hm Hna]]].
    + rewrite (turn_eof Config clock w rest Hrd) in H.
      inversion H; subst. reflexivity.
    + unfold replRecord in Hrepl. rewrite <- Hrd in Hrepl.
      destruct (nextAux (rd w)) as [[[key value] rest']|] eqn:Ha.
      * rewrite (turn_aux Config clock w _ _ _ Ha), Hrepl in H.
        destruct (String.eqb key "lua"); inversion H; subst; reflexivity.
      * destruct (turn_aux_failed Config clock w rest Hrd Ha) as [Hf _].
        rewrite H in Hf. discriminate.
    + rewrite (turn_switch Config clock w b rest Hrd) in H.
      apply (switch_quiet Config clock b Hm Hna) in H.
      destruct H as (_ & Hr & _). exact Hr.
  - destruct (turn_value_cases w b rest Hrd Hop)
      as [(_ & Hf & _)|[(v & _ & _ & Ht)|[(v & _ & _ & _ & Ht)|(v & _ & _ & _ & _ & Ht)]]];
      rewrite H in *; try discriminate;
      inversion Ht; subst; cbn; destruct (ld w); reflexivity.
Qed.

(** The only turn that panics for the missing replace modifier. *)
Lemma turn_replace_panic_inv (w : World) :
  fst (parseRDBEntry_turn Config clock w) = Panic ReplaceNotSupported ->
  normalValue Config (rd w) = true
  /\ rewriteOnRestore Config = true
  /\ PrimFloat.ltb (config.Version Config) 3 = true.
Proof.
  intros H.
  destruct (rd w) as [|b rest] eqn:Hrd.
  { rewrite (turn_exhausted Config clock w Hrd) in H. discriminate. }
  destruct (isOpcode b) eqn:Hop.
  - destruct (isOpcode_cases b Hop) as [->|[->|[Hm Hna]]].
    + rewrite (turn_eof Config clock w rest Hrd) in H. discriminate.
    + rewrite <- Hrd in *.
      destruct (nextAux (rd w)) as [[[key value] rest']|] eqn:Ha.
      * rewrite (turn_aux Config clock w _ _ _ Ha) in H.
        destruct (String.eqb key "repl-stream-db");
          [destruct (snd (strconv.Atoi value))|destruct (String.eqb key "lua")];
          discriminate.
      * destruct (turn_aux_failed Config clock w rest Hrd Ha) as [Hf _].
        rewrite Hf in H. discriminate.
    + rewrite (turn_switch Config clock w b rest Hrd) in H.
      destruct (parseRDBEntry_switch Config clock b
                  (mkWorld (ld w) rest (ticks w))) as [r w1] eqn:E.
      apply (switch_quiet Config clock b Hm Hna) in E.
      destruct E as (_ & _ & [Hr|[a [Hr _]]]); cbn in H; rewrite Hr in H;
        discriminate.
  - rewrite <- Hrd in *. unfold normalValue.
    destruct (turn_value_cases w b rest Hrd Hop)
      as [(_ & Hf & _)|[(v & _ & _ & Ht)|[(v & _ & _ & _ & Ht)|(v & Hv & Ho & Hrw & Hold & Ht)]]].
    + rewrite Hf in H. discriminate.
    + rewrite Ht in H. discriminate.
    + rewrite Ht in H. discriminate.
    + rewrite Hv, Ho. auto.
Qed.

End Cases.

(** ** The whole loop and [ParseRDB] *)

Lemma bytes_Equal_eq (a : list byte) :
  forall b, bytes_Equal a b = true <-> a = b.
Proof.
  induction a as [|x a IH]; intros [|y b]; cbn; split; intros H;
    try discriminate; try reflexivity.
  - apply andb_prop in H as [Hx Hab]. apply Byte.byte_dec_bl in Hx.
    apply IH in Hab. congruence.
  - injection H as -> ->. apply andb_true_intro. split.
    + now apply Byte.byte_dec_lb.
    + now apply IH.
Qed.

Section Parse.

Context {I : Imports}.
Variable Config : config.Config.
Variable clock : nat -> Z.

Lemma Visits_trans (w1 w2 w3 : World) :
  Visits Config clock w1 w2 -> Visits Config clock w2 w3 ->
  Visits Config clock w1 w3.
Proof.
  induction 1 as [|w wa wb Ht _ IH]; intros H23; [assumption|].
  apply (Visits_turn Config clock w wa w3 Ht). now apply IH.
Qed.

Lemma parse_along (w wk : World) :
  Visits Config clock w wk ->
  parseRDBEntry Config clock w = parseRDBEntry Config clock wk.
Proof.
  induction 1 as [|w wa wb Ht _ IH]; [reflexivity|].
  rewrite parseRDBEntry_unfold, Ht. exact IH.
Qed.

(** A panic of the loop is the panic of a turn it came to. *)
Lemma loop_panic_visits (fuel : nat) :
  forall w e,
    fst (parseRDBEntry_loop Config clock fuel w) = Panic e ->
    exists wk,
      Visits Config clock w wk
      /\ fst (parseRDBEntry_turn Config clock wk) = Panic e
      /\ snd (parseRDBEntry_loop Config clock fuel w)
         = snd (parseRDBEntry_turn Config clock wk).
Proof.
  induction fuel as [|k IH]; intros w e; cbn [parseRDBEntry_loop];
    [discriminate|].
  destruct (parseRDBEntry_turn Config clock w) as [[[|]|e'|] w1] eqn:E;
    cbn [fst snd]; intros H; try discriminate.
  - destruct (IH w1 e H) as (wk & Hv & Hp & Hs).
    exists wk. split; [|split; assumption].
    apply (Visits_turn Config clock w w1 wk E Hv).
  - exists w. rewrite E. cbn [fst snd]. injection H as ->.
    split; [apply Visits_here|split; reflexivity].
Qed.

(** A loop that returns has come to the end marker. *)
Lemma loop_ok_visits (fuel : nat) :
  forall w w',
    parseRDBEntry_loop Config clock fuel w = (Ok tt, w') ->
    exists wk,
      Visits Config clock w wk
      /\ parseRDBEntry_turn Config clock wk = (Ok Return, w').
Proof.
  induction fuel as [|k IH]; intros w w'; cbn [parseRDBEntry_loop];
    [discriminate|].
  destruct (parseRDBEntry_turn Config clock w) as [[[|]|e'|] w1] eqn:E;
    intros H; try discriminate.
  - destruct (IH w1 w' H) as (wk & Hv & Ht).
    exists wk. split; [|assumption].
    apply (Visits_turn Config clock w w1 wk E Hv).
  - inversion H; subst. exists w. split; [apply Visits_here|assumption].
Qed.

(** With no ["repl-stream-db"] record on the way, the loop leaves
    [replStreamDbId] as it found it. *)
Lemma parse_keeps_replStreamDbId (w w' : World) :
  (forall wk, Visits Config clock w wk -> replRecord (rd wk) = false) ->
  parseRDBEntry Config clock w = (Ok tt, w') ->
  replStreamDbId (ld w') = replStreamDbId (ld w).
Proof.
  intros Hno H. unfold parseRDBEntry in H.
  apply loop_ok_visits in H. destruct H as (wk & Hv & Ht).
  transitivity (replStreamDbId (ld wk)).
  - apply (turn_keeps_replStreamDbId Config clock wk w' Return Ht).
    now apply Hno.
  - clear Ht. induction Hv as [|w wa wb Ht Hv IH]; [reflexivity|].
    rewrite IH.
    + apply (turn_keeps_replStreamDbId Config clock w wa Continue Ht).
      apply Hno. apply Visits_here.
    + intros wj Hj. apply Hno. apply (Visits_turn Config clock w wa wj Ht Hj).
Qed.

(** [ParseRDB] on a file that opens, by the four cases of its header. *)
Lemma ParseRDB_short (fs : string -> option (list byte)) (w : World)
    (contents : list byte) :
  fs (filPath (ld w)) = Some contents ->
  (List.length contents < 9)%nat ->
  ParseRDB Config clock fs w =
  (Panic HeaderReadFailed, mkWorld (ld w) [] (ticks w)).
Proof.
  intros Hfs Hlen. unfold ParseRDB, bind at 1, gets. rewrite Hfs.
  unfold bind, ReadFull. cbn [rd ld ticks].
  destruct (Nat.ltb_spec (List.length contents) 9) as [_|Hge]; [reflexivity|lia].
Qed.

Lemma ParseRDB_read (fs : string -> option (list byte)) (w : World)
    (contents : list byte) :
  fs (filPath (ld w)) = Some contents ->
  (9 <= List.length contents)%nat ->
  ParseRDB Config clock fs w =
  if negb (bytes_Equal (firstn 5 (firstn 9 contents)) (list_byte_of_string "REDIS"))
  then (Panic InvalidMagic, mkWorld (ld w) (skipn 9 contents) (ticks w))
  else
    match snd (strconv.Atoi (string_of_list_byte (skipn 5 (firstn 9 contents)))) with
    | Some _ => (Panic InvalidVersion, mkWorld (ld w) (skipn 9 contents) (ticks w))
    | None =>
        bind (parseRDBEntry Config clock) (fun _ => gets replStreamDbId)
             (mkWorld (ld w) (skipn 9 contents) (ticks w))
    end.
Proof.
  intros Hfs Hlen. unfold ParseRDB, bind at 1, gets. rewrite Hfs.
  unfold bind at 1. unfold bind at 1. unfold ReadFull. cbn [rd ld ticks].
  destruct (Nat.ltb_spec (List.length contents) 9) as [Hlt|_]; [lia|].
  destruct (negb (bytes_Equal (firstn 5 (firstn 9 contents))
                    (list_byte_of_string "REDIS"))); [reflexivity|].
  destruct (strconv.Atoi (string_of_list_byte (skipn 5 (firstn 9 contents))))
    as [version [e|]]; reflexivity.
Qed.

(** [ParseRDB] ends, with its result or with a panic, on every input. *)
Lemma ParseRDB_returns (fs : string -> option (list byte)) (w : World) :
  fst (ParseRDB Config clock fs w) <> OutOfFuel.
Proof.
  unfold ParseRDB, bind at 1, gets.
  destruct (fs (filPath (ld w))) as [contents|] eqn:Hfs; [|discriminate].
  fold (gets filPath).
  destruct (Nat.ltb_spec (List.length contents) 9) as [Hlt|Hge].
  - assert (E := ParseRDB_short fs w contents Hfs Hlt).
    unfold ParseRDB, bind at 1, gets in E. rewrite Hfs in E.
    fold (gets filPath) in E. rewrite E. discriminate.
  - assert (E := ParseRDB_read fs w contents Hfs Hge).
    unfold ParseRDB, bind at 1, gets in E. rewrite Hfs in E.
    fold (gets filPath) in E. rewrite E.
    destruct (negb (bytes_Equal (firstn 5 (firstn 9 contents))
                      (list_byte_of_string "REDIS"))); [discriminate|].
    destruct (snd (strconv.Atoi
                     (string_of_list_byte (skipn 5 (firstn 9 contents)))));
      [discriminate|].
    unfold bind.
    pose proof (parseRDBEntry_returns Config clock
                  (mkWorld (ld w) (skipn 9 contents) (ticks w))) as Hr.
    destruct (parseRDBEntry Config clock
                (mkWorld (ld w) (skipn 9 contents) (ticks w)))
      as [[[]|e|] w1]; cbn in *; congruence.
Qed.

End Parse.

(** * What the dispatcher guarantees *)

Section ValueRecords.

Context {I : Imports}.
Variable Config : config.Config.
Variable clock : nat -> Z.

(** C3, amended. A value record whose captured payload is within the
    threshold, unless the selector is rewrite-on-restore and the target
    is older than 3.0, makes the dispatcher send exactly one command,
    with the current database index and the snapshot-load flag: restore,
    the key, the pending expiry in decimal and the envelope, then
    "replace" exactly when the selector is rewrite-on-restore, the
    idletime modifier exactly when the pending idle time is not 0 and
    the target is 5.0 or later, the freq modifier likewise. *)
Theorem restore_command (w : World) (v : ValueRecord) :
  nextValue (rd w) = Some v ->
  oversize Config v = false ->
  rewriteOnRestore Config && PrimFloat.ltb (config.Version Config) 3 = false ->
  exists w' envelope,
    parseRDBEntry_turn Config clock w = (Ok Continue, w')
    /\ envelope = string_of_list_byte (DumpEnvelope (vr_typeByte v) (vr_payload v))
    /\ ch (ld w') = ch (ld w) ++
         [ {| entry.DbId := nowDBId (ld w);
              entry.Argv :=
                ["restore"; vr_key v; strconv.FormatInt (expireMs (ld w)); envelope]
                ++ (if rewriteOnRestore Config then ["replace"] else [])
                ++ (if negb (idle (ld w) =? 0)
                       && PrimFloat.leb 5 (config.Version Config)
                    then ["idletime"; strconv.FormatInt (idle (ld w))] else [])
                ++ (if negb (freq (ld w) =? 0)
                       && PrimFloat.leb 5 (config.Version Config)
                    then ["freq"; strconv.FormatInt (freq (ld w))] else []);
              entry.IsBase := true |} ].
Proof.
  intros Hv Hover Hcfg.
  eexists. eexists.
  split; [exact (turn_restore Config clock w v Hv Hover Hcfg)|].
  split; [reflexivity|]. cbn. destruct (ld w); reflexivity.
Qed.

(** C4. A value record whose captured payload exceeds the threshold
    leaves the dump buffer alone and makes the dispatcher send one
    command for each argument list of the object's [Rewrite], with the
    current database index and the snapshot-load flag, and after them,
    exactly when the pending expiry is not 0, one PEXPIRE for the key
    with that expiry; for a string object the [Rewrite] commands are
    the one command set, key, value. *)
Theorem oversize_commands (w : World) (v : ValueRecord) :
  nextValue (rd w) = Some v ->
  oversize Config v = true ->
  exists w',
    parseRDBEntry_turn Config clock w = (Ok Continue, w')
    /\ dumpBuffer (ld w') = dumpBuffer (ld w)
    /\ ch (ld w') = ch (ld w)
         ++ map (fun cmd => {| entry.DbId := nowDBId (ld w);
                               entry.Argv := cmd;
                               entry.IsBase := true |})
                (types.Object_Rewrite (vr_object v))
         ++ (if expireMs (ld w) =? 0 then []
             else [ {| entry.DbId := nowDBId (ld w);
                       entry.Argv := ["PEXPIRE"; vr_key v;
                                      strconv.FormatInt (expireMs (ld w))];
                       entry.IsBase := true |} ])
    /\ (forall r so n,
          StringObject_LoadFromBuffer r (vr_key v) (vr_typeByte v) = Some (so, n) ->
          vr_object v = types.Obj so ->
          types.Object_Rewrite (vr_object v)
            = [["set"; vr_key v; types.value so]]).
Proof.
  intros Hv Hover.
  eexists. split; [exact (turn_oversize Config clock w v Hv Hover)|].
  split; [|split].
  - cbn. destruct (ld w); reflexivity.
  - cbn. destruct (ld w); reflexivity.
  - intros r so n Hload ->. unfold StringObject_LoadFromBuffer in Hload.
    destruct (ReadString r) as [[s m]|]; [|discriminate].
    injection Hload as <- _. reflexivity.
Qed.

(** C5. A turn on a value record that does not panic continues the
    loop with the pending expiry, idle time and frequency all 0,
    whichever path it took; so a value record that comes next is sent
    with expiry 0 and no idletime or freq modifier on the normal path,
    and with no PEXPIRE on the oversize path. *)
Theorem pending_reset (w w' : World) (typeByte : byte) (rest : list byte)
    (c : Flow) :
  rd w = typeByte :: rest ->
  isOpcode typeByte = false ->
  parseRDBEntry_turn Config clock w = (Ok c, w') ->
  c = Continue
  /\ expireMs (ld w') = 0 /\ idle (ld w') = 0 /\ freq (ld w') = 0
  /\ forall v2 w2,
       nextValue (rd w') = Some v2 ->
       parseRDBEntry_turn Config clock w' = (Ok Continue, w2) ->
       ch (ld w2) = ch (ld w') ++
         if oversize Config v2
         then map (fun cmd => entry.mkEntry (nowDBId (ld w')) cmd true)
                  (types.Object_Rewrite (vr_object v2))
         else [entry.mkEntry (nowDBId (ld w'))
                 (["restore"; vr_key v2; "0";
                   string_of_list_byte
                     (DumpEnvelope (vr_typeByte v2) (vr_payload v2))]
                  ++ (if rewriteOnRestore Config then ["replace"] else []))
                 true].
Proof.
  intros Hrd Hop Ht.
  assert (Hreset : c = Continue
                   /\ expireMs (ld w') = 0 /\ idle (ld w') = 0 /\ freq (ld w') = 0).
  { destruct (turn_value_cases Config clock w typeByte rest Hrd Hop)
      as [(_ & Hf & _)|[(v & _ & _ & E)|[(v & _ & _ & _ & E)|(v & _ & _ & _ & _ & E)]]];
      rewrite Ht in *; try discriminate;
      inversion E; subst; repeat split. }
  destruct Hreset as (Hc & He & Hi & Hf).
  repeat (split; [assumption|]).
  intros v2 w2 Hv2 Ht2.
  destruct (oversize Config v2) eqn:Hover.
  - rewrite (turn_oversize Config clock w' v2 Hv2 Hover) in Ht2.
    inversion Ht2; subst. unfold rewriteEntries. rewrite He.
    cbn. destruct (ld w'); cbn. now rewrite app_nil_r.
  - destruct (rewriteOnRestore Config && PrimFloat.ltb (config.Version Config) 3)
      eqn:Hcfg.
    + apply andb_prop in Hcfg as [Hrw Hold].
      rewrite (turn_replace_panic Config clock w' v2 Hv2 Hover Hrw Hold) in Ht2.
      discriminate.
    + rewrite (turn_restore Config clock w' v2 Hv2 Hover Hcfg) in Ht2.
      inversion Ht2; subst. unfold restoreArgv. rewrite He, Hi, Hf.
      cbn. destruct (ld w'); cbn. now rewrite app_nil_r.
Qed.

(** C10. On the oversize path the outcome of the turn does not depend
    on the pending idle time and frequency: the commands sent are the
    [Rewrite] commands and the PEXPIRE, if any, and both fields are 0
    afterwards. *)
Theorem oversize_drops_idle_freq (w : World) (v : ValueRecord) (i f : Z) :
  nextValue (rd w) = Some v ->
  oversize Config v = true ->
  parseRDBEntry_turn Config clock
    (mkWorld (set_freq f (set_idle i (ld w))) (rd w) (ticks w))
  = parseRDBEntry_turn Config clock w
  /\ exists w',
       parseRDBEntry_turn Config clock w = (Ok Continue, w')
       /\ ch (ld w') = ch (ld w)
            ++ map (fun cmd => entry.mkEntry (nowDBId (ld w)) cmd true)
                   (types.Object_Rewrite (vr_object v))
            ++ (if expireMs (ld w) =? 0 then []
                else [entry.mkEntry (nowDBId (ld w))
                        ["PEXPIRE"; vr_key v;
                         strconv.FormatInt (expireMs (ld w))] true])
       /\ idle (ld w') = 0 /\ freq (ld w') = 0.
Proof.
  intros Hv Hover. split.
  - rewrite (turn_oversize Config clock w v Hv Hover).
    rewrite (turn_oversize Config clock
               (mkWorld (set_freq f (set_idle i (ld w))) (rd w) (ticks w)) v Hv Hover).
    cbn. destruct (ld w); reflexivity.
  - eexists. split; [exact (turn_oversize Config clock w v Hv Hover)|].
    cbn. destruct (ld w); repeat split.
Qed.

End ValueRecords.

Section WholeParse.

Context {I : Imports}.
Variable Config : config.Config.
Variable clock : nat -> Z.

Lemma ParseRDB_ok_inv (start : World) (v : Z) (w' : World) :
  bind (parseRDBEntry Config clock) (fun _ => gets replStreamDbId) start
    = (Ok v, w') ->
  parseRDBEntry Config clock start = (Ok tt, w')
  /\ v = replStreamDbId (ld w').
Proof.
  unfold bind, gets.
  destruct (parseRDBEntry Config clock start) as [[[]|e|] w1];
    intros H; inversion H; subst. now split.
Qed.

Lemma ParseRDB_panic_inv (start : World) (e : PanicMsg) :
  fst (bind (parseRDBEntry Config clock) (fun _ => gets replStreamDbId) start)
    = Panic e
  <-> fst (parseRDBEntry Config clock start) = Panic e.
Proof.
  unfold bind, gets.
  destruct (parseRDBEntry Config clock start) as [[[]|e'|] w1]; cbn;
    split; intros H; try discriminate; congruence.
Qed.

(** Settles an implication from an opcode: by the equation [E] when the
    opcode is the one of the case at hand, by the clash of the two
    opcodes otherwise. *)
Ltac opcode_case E :=
  first
    [ intros _; exact E
    | let H := fresh in intros H; vm_compute in H; discriminate H ].

(** Takes the results of the reads of a turn apart. *)
Ltac by_reads :=
  repeat match goal with
    | |- context [match ?x with Some _ => _ | None => _ end] =>
        destruct x as [[? ?]|]
    | |- context [match ?x with [] => _ | _ :: _ => _ end] => destruct x
    end.

(** C6. During a parse a turn on a metadata opcode never ends the loop
    and sends no command, but for an [Aux] record with the key "lua",
    which sends the one command script, load, value with the
    snapshot-load flag. For each opcode the turn is given with its
    reads: when they succeed it continues the loop with the field of the
    opcode set ([Aux] with the key "repl-stream-db" stores the integer
    its value reads as, and panics when it is none), and it panics at
    the first read that fails. When the loop comes to the end marker
    [ParseRDB] returns what is stored then: the value of the last such
    record, and what the loader held at the start, 0 for a new loader,
    when there was none. *)
Theorem metadata_opcodes (fs : string -> option (list byte)) (w : World)
    (contents : list byte) :
  fs (filPath (ld w)) = Some contents ->
  (9 <= List.length contents)%nat ->
  firstn 5 contents = list_byte_of_string "REDIS" ->
  snd (strconv.Atoi (string_of_list_byte (skipn 5 (firstn 9 contents)))) = None ->
  let start := mkWorld (ld w) (skipn 9 contents) (ticks w) in
  (forall wk typeByte rest,
      Visits Config clock start wk ->
      rd wk = typeByte :: rest ->
      isMetadata typeByte = true ->
      let out := parseRDBEntry_turn Config clock wk in
      fst out <> Ok Return
      /\ ch (ld (snd out)) = ch (ld wk) ++
           match nextAux (rd wk) with
           | Some (key, value, _) =>
               if String.eqb key "lua"
               then [ {| entry.DbId := 0;
                         entry.Argv := ["script"; "load"; value];
                         entry.IsBase := true |} ]
               else []
           | None => []
           end
      /\ (typeByte = kFlagIdle ->
          out = match ReadLength rest with
                | Some (n, k) =>
                    (Ok Continue,
                     mkWorld (set_idle (int64 (uint64 n)) (ld wk))
                             (skipn k rest) (ticks wk))
                | None => (Panic ReadFailed, mkWorld (ld wk) rest (ticks wk))
                end)
      /\ (typeByte = kFlagFreq ->
          out = match rest with
                | b :: rest' =>
                    (Ok Continue,
                     mkWorld (set_freq (Z_of_byte b) (ld wk)) rest' (ticks wk))
                | [] => (Panic ReadFailed, mkWorld (ld wk) [] (ticks wk))
                end)
      /\ (typeByte = kFlagResizeDB ->
          out = match ReadLength rest with
                | Some (_, k1) =>
                    match ReadLength (skipn k1 rest) with
                    | Some (_, k2) =>
                        (Ok Continue,
                         mkWorld (ld wk) (skipn k2 (skipn k1 rest)) (ticks wk))
                    | None =>
                        (Panic ReadFailed,
                         mkWorld (ld wk) (skipn k1 rest) (ticks wk))
                    end
                | None => (Panic ReadFailed, mkWorld (ld wk) rest (ticks wk))
                end)
      /\ (typeByte = kFlagExpireMs ->
          out = match ReadUint64 rest with
                | Some (at_, k) =>
                    (Ok Continue,
                     mkWorld
                       (set_expireMs
                          (clamp (int64 (int64 (uint64 at_)
                                         - int64 (clock (ticks wk)))))
                          (ld wk))
                       (skipn k rest) (S (ticks wk)))
                | None => (Panic ReadFailed, mkWorld (ld wk) rest (ticks wk))
                end)
      /\ (typeByte = kFlagExpire ->
          out = match ReadUint32 rest with
                | Some (at_, k) =>
                    (Ok Continue,
                     mkWorld
                       (set_expireMs
                          (clamp (int64 (int64 (uint32 at_ * 1000)
                                         - int64 (clock (ticks wk)))))
                          (ld wk))
                       (skipn k rest) (S (ticks wk)))
                | None => (Panic ReadFailed, mkWorld (ld wk) rest (ticks wk))
                end)
      /\ (typeByte = kFlagSelect ->
          out = match ReadLength rest with
                | Some (n, k) =>
                    (Ok Continue,
                     mkWorld (set_nowDBId (int64 (uint64 n)) (ld wk))
                             (skipn k rest) (ticks wk))
                | None => (Panic ReadFailed, mkWorld (ld wk) rest (ticks wk))
                end)
      /\ (typeByte = kFlagAUX ->
          match nextAux (rd wk) with
          | Some (key, value, rest') =>
              out =
              if String.eqb key "repl-stream-db" then
                (match snd (strconv.Atoi value) with
                 | Some _ => Panic InvalidReplStreamDb
                 | None => Ok Continue
                 end,
                 mkWorld (set_replStreamDbId (fst (strconv.Atoi value)) (ld wk))
                         rest' (ticks wk))
              else if String.eqb key "lua" then
                (Ok Continue,
                 mkWorld (set_ch (ch (ld wk)
                                  ++ [ {| entry.DbId := 0;
                                          entry.Argv := ["script"; "load"; value];
                                          entry.IsBase := true |} ])
                                 (ld wk))
                         rest' (ticks wk))
              else (Ok Continue, mkWorld (ld wk) rest' (ticks wk))
          | None =>
              fst out = Panic ReadFailed /\ ld (snd out) = ld wk
          end))
  /\ (forall v w',
        ParseRDB Config clock fs w = (Ok v, w') ->
        v = replStreamDbId (ld w')
        /\ ((forall wk, Visits Config clock start wk -> replRecord (rd wk) = false) ->
            v = replStreamDbId (ld w))
        /\ (forall wk wk1 value rest' n,
              Visits Config clock start wk ->
              nextAux (rd wk) = Some ("repl-stream-db", value, rest') ->
              strconv.Atoi value = (n, None) ->
              parseRDBEntry_turn Config clock wk = (Ok Continue, wk1) ->
              (forall wj, Visits Config clock wk1 wj -> replRecord (rd wj) = false) ->
              v = n))
  /\ (forall wk rest,
        Visits Config clock start wk ->
        rd wk = kEOF :: rest ->
        ParseRDB Config clock fs w
        = (Ok (replStreamDbId (ld wk)), mkWorld (ld wk) rest (ticks wk)))
  /\ (forall p c, replStreamDbId (NewLoader p c) = 0).
Proof.
  intros Hfs Hlen Hmagic Hver start.
  split; [|split; [|split; [|reflexivity]]].
  - intros wk typeByte rest _ Hrd Hm out. subst out.
    destruct (isMetadata_cases typeByte Hm)
      as [->|[->|[->|[->|[->|[->| ->]]]]]].
    + pose proof (turn_idle_cases Config clock wk rest Hrd) as E.
      assert (Ha : nextAux (rd wk) = None)
        by (unfold nextAux; rewrite Hrd; reflexivity).
      rewrite Ha.
      split; [rewrite E; by_reads; discriminate|].
      split; [rewrite E; by_reads; cbn; destruct (ld wk); cbn;
              now rewrite app_nil_r|].
      repeat (split; [opcode_case E|]). opcode_case E.
    + pose proof (turn_freq_cases Config clock wk rest Hrd) as E.
      assert (Ha : nextAux (rd wk) = None)
        by (unfold nextAux; rewrite Hrd; reflexivity).
      rewrite Ha.
      split; [rewrite E; by_reads; discriminate|].
      split; [rewrite E; by_reads; cbn; destruct (ld wk); cbn;
              now rewrite app_nil_r|].
      repeat (split; [opcode_case E|]). opcode_case E.
    + destruct (nextAux (rd wk)) as [[[key value] rest']|] eqn:Ha.
      * pose proof (turn_aux Config clock wk key value rest' Ha) as E.
        split; [|split].
        -- rewrite E.
           destruct (String.eqb key "repl-stream-db");
             [destruct (snd (strconv.Atoi value))|destruct (String.eqb key "lua")];
             discriminate.
        -- rewrite E. destruct (String.eqb key "repl-stream-db") eqn:Er.
           ++ apply String.eqb_eq in Er. subst key.
              change (String.eqb "repl-stream-db" "lua") with false.
              cbn. destruct (ld wk); cbn. now rewrite app_nil_r.
           ++ destruct (String.eqb key "lua"); cbn; destruct (ld wk); cbn;
                rewrite ?app_nil_r; reflexivity.
        -- repeat (split; [opcode_case E|]). opcode_case E.
      * destruct (turn_aux_failed Config clock wk rest Hrd Ha) as [Hf Hl].
        split; [rewrite Hf; discriminate|].
        split; [rewrite Hl; now rewrite app_nil_r|].
        pose proof (conj Hf Hl) as E.
        repeat (split; [opcode_case E|]). opcode_case E.
    + pose proof (turn_resize_cases Config clock wk rest Hrd) as E.
      assert (Ha : nextAux (rd wk) = None)
        by (unfold nextAux; rewrite Hrd; reflexivity).
      rewrite Ha.
      split; [rewrite E; by_reads; discriminate|].
      split; [rewrite E; by_reads; cbn; destruct (ld wk); cbn;
              now rewrite app_nil_r|].
      repeat (split; [opcode_case E|]). opcode_case E.
    + pose proof (turn_expire_ms_cases Config clock wk rest Hrd) as E.
      assert (Ha : nextAux (rd wk) = None)
        by (unfold nextAux; rewrite Hrd; reflexivity).
      rewrite Ha.
      split; [rewrite E; by_reads; discriminate|].
      split; [rewrite E; by_reads; cbn; destruct (ld wk); cbn;
              now rewrite app_nil_r|].
      repeat (split; [opcode_case E|]). opcode_case E.
    + pose proof (turn_expire_cases Config clock wk rest Hrd) as E.
      assert (Ha : nextAux (rd wk) = None)
        by (unfold nextAux; rewrite Hrd; reflexivity).
      rewrite Ha.
      split; [rewrite E; by_reads; discriminate|].
      split; [rewrite E; by_reads; cbn; destruct (ld wk); cbn;
              now rewrite app_nil_r|].
      repeat (split; [opcode_case E|]). opcode_case E.
    + pose proof (turn_select_cases Config clock wk rest Hrd) as E.
      assert (Ha : nextAux (rd wk) = None)
        by (unfold nextAux; rewrite Hrd; reflexivity).
      rewrite Ha.
      split; [rewrite E; by_reads; discriminate|].
      split; [rewrite E; by_reads; cbn; destruct (ld wk); cbn;
              now rewrite app_nil_r|].
      repeat (split; [opcode_case E|]). opcode_case E.
  - intros v w' Hp.
    rewrite (ParseRDB_read Config clock fs w contents Hfs Hlen) in Hp.
    apply bytes_Equal_eq in Hmagic.
    rewrite firstn_firstn in Hp. cbn [Nat.min] in Hp.
    rewrite Hmagic, Hver in Hp. cbn [negb] in Hp.
    apply ParseRDB_ok_inv in Hp. destruct Hp as [Hp ->].
    change (parseRDBEntry Config clock start = (Ok tt, w')) in Hp.
    split; [reflexivity|split].
    + intros Hno.
      apply (parse_keeps_replStreamDbId Config clock start w' Hno Hp).
    + intros wk wk1 value rest' n Hvis Ha Hn Ht Hno.
      assert (Hvis1 : Visits Config clock start wk1).
      { apply (Visits_trans Config clock start wk wk1 Hvis).
        apply (Visits_turn Config clock wk wk1 wk1 Ht). apply Visits_here. }
      rewrite (parse_along Config clock start wk1 Hvis1) in Hp.
      rewrite (parse_keeps_replStreamDbId Config clock wk1 w' Hno Hp).
      rewrite (turn_aux Config clock wk _ _ _ Ha) in Ht.
      rewrite String.eqb_refl, Hn in Ht.
      inversion Ht; subst. reflexivity.
  - intros wk rest Hvis Hrd.
    rewrite (ParseRDB_read Config clock fs w contents Hfs Hlen).
    apply bytes_Equal_eq in Hmagic.
    rewrite firstn_firstn. cbn [Nat.min]. rewrite Hmagic, Hver. cbn [negb].
    change (mkWorld (ld w) (skipn 9 contents) (ticks w)) with start.
    unfold bind. rewrite (parse_along Config clock start wk Hvis).
    rewrite parseRDBEntry_unfold, (turn_eof Config clock wk rest Hrd).
    reflexivity.
Qed.

(** A normal-path value record, when the replace modifier is asked of a
    target older than 3.0, is where the loop stops. *)
Lemma Visits_stops (w wk : World) :
  rewriteOnRestore Config = true ->
  PrimFloat.ltb (config.Version Config) 3 = true ->
  normalValue Config (rd w) = true ->
  Visits Config clock w wk -> wk = w.
Proof.
  intros Hrw Hold Hn Hv. destruct Hv as [|w w1 w2 Ht _]; [reflexivity|].
  unfold normalValue in Hn.
  destruct (nextValue (rd w)) as [v|] eqn:Hv; [|discriminate].
  apply negb_true_iff in Hn.
  rewrite (turn_replace_panic Config clock w v Hv Hn Hrw Hold) in Ht.
  discriminate.
Qed.

(** C7. With the selector at rewrite-on-restore and a target older than
    3.0, a turn on a value record that takes the normal path panics for
    the missing replace modifier and sends nothing; the loop, and
    [ParseRDB] after a valid header, panic so exactly when they come to
    such a record; nothing is visited after it, so it is the first one. *)
Theorem replace_unsupported_is_lazy :
  rewriteOnRestore Config = true ->
  PrimFloat.ltb (config.Version Config) 3 = true ->
  (forall w,
      normalValue Config (rd w) = true ->
      fst (parseRDBEntry_turn Config clock w) = Panic ReplaceNotSupported
      /\ ch (ld (snd (parseRDBEntry_turn Config clock w))) = ch (ld w))
  /\ (forall w,
        fst (parseRDBEntry Config clock w) = Panic ReplaceNotSupported
        <-> exists wk, Visits Config clock w wk /\ normalValue Config (rd wk) = true)
  /\ (forall w wk wj,
        Visits Config clock w wk -> normalValue Config (rd wk) = true ->
        Visits Config clock wk wj -> wj = wk)
  /\ (forall fs w,
        fst (ParseRDB Config clock fs w) = Panic ReplaceNotSupported
        <-> exists contents,
              fs (filPath (ld w)) = Some contents
              /\ (9 <= List.length contents)%nat
              /\ firstn 5 contents = list_byte_of_string "REDIS"
              /\ snd (strconv.Atoi
                        (string_of_list_byte (skipn 5 (firstn 9 contents))))
                 = None
              /\ exists wk,
                   Visits Config clock
                     (mkWorld (ld w) (skipn 9 contents) (ticks w)) wk
                   /\ normalValue Config (rd wk) = true).
Proof.
  intros Hrw Hold.
  assert (Hturn : forall w, normalValue Config (rd w) = true ->
            fst (parseRDBEntry_turn Config clock w) = Panic ReplaceNotSupported
            /\ ch (ld (snd (parseRDBEntry_turn Config clock w))) = ch (ld w)).
  { intros w Hn. unfold normalValue in Hn.
    destruct (nextValue (rd w)) as [v|] eqn:Hv; [|discriminate].
    apply negb_true_iff in Hn.
    rewrite (turn_replace_panic Config clock w v Hv Hn Hrw Hold).
    cbn. destruct (ld w); split; reflexivity. }
  assert (Hloop : forall w,
            fst (parseRDBEntry Config clock w) = Panic ReplaceNotSupported
            <-> exists wk, Visits Config clock w wk
                           /\ normalValue Config (rd wk) = true).
  { intros w. split.
    - intros H. unfold parseRDBEntry in H.
      apply loop_panic_visits in H. destruct H as (wk & Hv & Hp & _).
      exists wk. split; [assumption|].
      now apply (turn_replace_panic_inv Config clock wk).
    - intros (wk & Hv & Hn).
      rewrite (parse_along Config clock w wk Hv), parseRDBEntry_unfold.
      destruct (Hturn wk Hn) as [Hp _].
      destruct (parseRDBEntry_turn Config clock wk) as [r w1].
      cbn in Hp. subst r. reflexivity. }
  split; [exact Hturn|]. split; [exact Hloop|]. split.
  - intros w wk wj _ Hn Hj. now apply (Visits_stops wk wj).
  - intros fs w. split.
    + intros H. unfold ParseRDB, bind at 1, gets in H.
      destruct (fs (filPath (ld w))) as [contents|] eqn:Hfs; [|discriminate].
      fold (gets filPath) in H.
      exists contents. split; [reflexivity|].
      destruct (Nat.ltb_spec (List.length contents) 9) as [Hlt|Hge].
      { assert (E := ParseRDB_short Config clock fs w contents Hfs Hlt).
        unfold ParseRDB, bind at 1, gets in E. rewrite Hfs in E.
        fold (gets filPath) in E. rewrite E in H. discriminate. }
      assert (E := ParseRDB_read Config clock fs w contents Hfs Hge).
      unfold ParseRDB, bind at 1, gets in E. rewrite Hfs in E.
      fold (gets filPath) in E. rewrite E in H. clear E.
      rewrite firstn_firstn in H. cbn [Nat.min] in H.
      destruct (bytes_Equal (firstn 5 contents) (list_byte_of_string "REDIS"))
        eqn:Hm; [|discriminate].
      apply bytes_Equal_eq in Hm. cbn [negb] in H.
      destruct (snd (strconv.Atoi
                       (string_of_list_byte (skipn 5 (firstn 9 contents)))))
        as [err|] eqn:Hver; [discriminate|].
      apply ParseRDB_panic_inv in H. apply Hloop in H.
      repeat split; assumption.
    + intros (contents & Hfs & Hlen & Hm & Hver & Hvis).
      rewrite (ParseRDB_read Config clock fs w contents Hfs Hlen).
      apply bytes_Equal_eq in Hm.
      rewrite firstn_firstn. cbn [Nat.min]. rewrite Hm. cbn [negb].
      rewrite Hver.
      apply ParseRDB_panic_inv. now apply Hloop.
Qed.

(** C8. [ParseRDB] reads nine bytes before any record. A file shorter
    than that, a file whose first five bytes are not REDIS, and a file
    whose next four bytes [strconv.Atoi] rejects each end the parse with
    a panic, the loader unchanged (nothing sent) and nothing but the
    header taken off the file; otherwise the records are parsed from the
    tenth byte on and the header is not looked at again. *)
Theorem header_validation (fs : string -> option (list byte)) (w : World)
    (contents : list byte) :
  fs (filPath (ld w)) = Some contents ->
  let magic := firstn 5 contents in
  let digits := string_of_list_byte (skipn 5 (firstn 9 contents)) in
  let after := mkWorld (ld w) (skipn 9 contents) (ticks w) in
  ((List.length contents < 9)%nat ->
     ParseRDB Config clock fs w = (Panic HeaderReadFailed, after))
  /\ ((9 <= List.length contents)%nat ->
      magic <> list_byte_of_string "REDIS" ->
      ParseRDB Config clock fs w = (Panic InvalidMagic, after))
  /\ ((9 <= List.length contents)%nat ->
      magic = list_byte_of_string "REDIS" ->
      snd (strconv.Atoi digits) <> None ->
      ParseRDB Config clock fs w = (Panic InvalidVersion, after))
  /\ ((9 <= List.length contents)%nat ->
      magic = list_byte_of_string "REDIS" ->
      snd (strconv.Atoi digits) = None ->
      ParseRDB Config clock fs w =
        bind (parseRDBEntry Config clock) (fun _ => gets replStreamDbId) after).
Proof.
  intros Hfs magic digits after. subst magic digits after.
  split; [|split; [|split]].
  - intros Hlt. rewrite (ParseRDB_short Config clock fs w contents Hfs Hlt).
    rewrite skipn_all2 by lia. reflexivity.
  - intros Hge Hm. rewrite (ParseRDB_read Config clock fs w contents Hfs Hge).
    rewrite firstn_firstn. cbn [Nat.min].
    destruct (bytes_Equal (firstn 5 contents) (list_byte_of_string "REDIS"))
      eqn:E; [|reflexivity].
    apply bytes_Equal_eq in E. contradiction.
  - intros Hge Hm Hv. rewrite (ParseRDB_read Config clock fs w contents Hfs Hge).
    rewrite firstn_firstn. cbn [Nat.min].
    apply bytes_Equal_eq in Hm. rewrite Hm. cbn [negb].
    destruct (snd (strconv.Atoi
                     (string_of_list_byte (skipn 5 (firstn 9 contents)))));
      [reflexivity|contradiction].
  - intros Hge Hm Hv.
    rewrite (ParseRDB_read Config clock fs w contents Hfs Hge).
    rewrite firstn_firstn. cbn [Nat.min].
    apply bytes_Equal_eq in Hm. rewrite Hm, Hv. reflexivity.
Qed.

End WholeParse.

(** * Runs on the sample snapshots *)

(** C1. An [ExpireAtMs] record read when the clock stands at its
    timestamp, and an [ExpireAtSeconds] record likewise, each leave a
    pending expiry of 0, not 1, and the value record that follows is
    sent with the expiry "0", as a key without expiry is. *)
Theorem expire_at_now_not_clamped :
  let turn := parseRDBEntry_turn (I := plain.imports) sample.target6 in
  let sent := [ {| entry.DbId := 0;
                   entry.Argv :=
                     ["restore"; "k"; "0";
                      string_of_list_byte
                        (DumpEnvelope (I := plain.imports) x00 [x01; x76])];
                   entry.IsBase := true |} ] in
  (exists w1 w2,
      turn (sample.clock_at sample.ms_stamp)
           (sample.world (sample.expire_ms ++ sample.string_kv ++ sample.eof))
        = (Ok Continue, w1)
      /\ expireMs (ld w1) = 0
      /\ turn (sample.clock_at sample.ms_stamp) w1 = (Ok Continue, w2)
      /\ ch (ld w2) = sent)
  /\ (exists w1 w2,
        turn (sample.clock_at (sample.s_stamp * 1000))
             (sample.world (sample.expire_s ++ sample.string_kv ++ sample.eof))
          = (Ok Continue, w1)
        /\ expireMs (ld w1) = 0
        /\ turn (sample.clock_at (sample.s_stamp * 1000)) w1 = (Ok Continue, w2)
        /\ ch (ld w2) = sent).
Proof.
  split; eexists; eexists;
    (split; [vm_compute; reflexivity|]);
    (split; [reflexivity|]);
    (split; [vm_compute; reflexivity|]);
    reflexivity.
Qed.

(** C3 as stated fails: on a target of version 2.5 with the selector at
    rewrite-on-restore, a value record within the threshold sends no
    command at all. *)
Lemma restore_command_counterexample :
  let w := sample.world (sample.string_kv ++ sample.eof) in
  let out := parseRDBEntry_turn (I := plain.imports)
               sample.target2_rewrite sample.clock w in
  nextValue (I := plain.imports) (rd w) = Some sample.kv_record
  /\ oversize sample.target2_rewrite sample.kv_record = false
  /\ fst out = Panic ReplaceNotSupported
  /\ ~ exists e, ch (ld (snd out)) = ch (ld w) ++ [e].
Proof.
  repeat split; try (vm_compute; reflexivity).
  intros [e H]. vm_compute in H. discriminate H.
Qed.

Lemma restore_command_witness :
  let w := sample.world (sample.string_kv ++ sample.eof) in
  nextValue (I := plain.imports) (rd w) = Some sample.kv_record
  /\ oversize sample.target6 sample.kv_record = false
  /\ exists w' envelope,
       parseRDBEntry_turn (I := plain.imports) sample.target6 sample.clock w
         = (Ok Continue, w')
       /\ envelope = string_of_list_byte
                       (DumpEnvelope (I := plain.imports) x00 [x01; x76])
       /\ ch (ld w') = [entry.mkEntry 0 ["restore"; "k"; "0"; envelope] true].
Proof.
  split; [reflexivity|]. split; [reflexivity|].
  apply (restore_command (I := plain.imports) sample.target6 sample.clock
           (sample.world (sample.string_kv ++ sample.eof)) sample.kv_record);
    reflexivity.
Defined.

Lemma oversize_commands_witness :
  let w := sample.pending_world (sample.string_kv ++ sample.eof) in
  nextValue (I := plain.imports) (rd w) = Some sample.kv_record
  /\ oversize sample.target2_rewrite_tiny sample.kv_record = true
  /\ exists w',
       parseRDBEntry_turn (I := plain.imports)
         sample.target2_rewrite_tiny sample.clock w = (Ok Continue, w')
       /\ dumpBuffer (ld w') = []
       /\ ch (ld w') = [entry.mkEntry 0 ["set"; "k"; "v"] true;
                        entry.mkEntry 0 ["PEXPIRE"; "k"; "9"] true].
Proof.
  split; [reflexivity|]. split; [reflexivity|].
  destruct (oversize_commands (I := plain.imports)
              sample.target2_rewrite_tiny sample.clock
              (sample.pending_world (sample.string_kv ++ sample.eof))
              sample.kv_record eq_refl eq_refl)
    as (w' & Ht & Hd & Hc & _).
  exists w'. split; [exact Ht|]. split; [exact Hd|exact Hc].
Defined.

Lemma pending_reset_witness :
  let w := sample.pending_world
             (sample.string_kv ++ sample.string_kv ++ sample.eof) in
  let w' := snd (parseRDBEntry_turn (I := plain.imports)
                   sample.target6 sample.clock w) in
  (expireMs (ld w), idle (ld w), freq (ld w)) = (9, 5, 7)
  /\ ch (ld w')
     = [entry.mkEntry 0
          ["restore"; "k"; "9";
           string_of_list_byte (DumpEnvelope (I := plain.imports) x00 [x01; x76]);
           "idletime"; "5"; "freq"; "7"] true]
  /\ expireMs (ld w') = 0 /\ idle (ld w') = 0 /\ freq (ld w') = 0.
Proof.
  intros w w'.
  split; [reflexivity|]. split; [vm_compute; reflexivity|].
  assert (Ht : parseRDBEntry_turn (I := plain.imports)
                 sample.target6 sample.clock w = (Ok Continue, w'))
    by (vm_compute; reflexivity).
  destruct (pending_reset (I := plain.imports) sample.target6 sample.clock
              w w' x00
              (skipn 1 (sample.string_kv ++ sample.string_kv ++ sample.eof))
              Continue eq_refl eq_refl Ht)
    as (_ & He & Hi & Hf & _).
  split; [exact He|]. split; [exact Hi|exact Hf].
Defined.

Lemma oversize_drops_idle_freq_witness :
  let w := sample.world (sample.string_kv ++ sample.eof) in
  nextValue (I := plain.imports) (rd w) = Some sample.kv_record
  /\ oversize sample.target2_rewrite_tiny sample.kv_record = true
  /\ parseRDBEntry_turn (I := plain.imports)
       sample.target2_rewrite_tiny sample.clock
       (sample.pending_world (sample.string_kv ++ sample.eof))
     = parseRDBEntry_turn (I := plain.imports)
         sample.target2_rewrite_tiny sample.clock
         (mkWorld (set_expireMs 9 (NewLoader sample.path []))
                  (sample.string_kv ++ sample.eof) 0).
Proof.
  split; [reflexivity|]. split; [reflexivity|].
  apply (oversize_drops_idle_freq (I := plain.imports)
           sample.target2_rewrite_tiny sample.clock
           (mkWorld (set_expireMs 9 (NewLoader sample.path []))
                    (sample.string_kv ++ sample.eof) 0)
           sample.kv_record 5 7);
    reflexivity.
Defined.

Lemma metadata_opcodes_witness :
  let contents := sample.header ++ sample.idle5 ++ sample.aux_repl3
                  ++ sample.aux_lua ++ sample.select0 ++ sample.string_kv
                  ++ sample.eof in
  let out := ParseRDB (I := plain.imports) sample.target6 sample.clock
               (sample.disk contents) (sample.world []) in
  sample.disk contents (filPath (ld (sample.world []))) = Some contents
  /\ (9 <= List.length contents)%nat
  /\ firstn 5 contents = list_byte_of_string "REDIS"
  /\ snd (strconv.Atoi (string_of_list_byte (skipn 5 (firstn 9 contents)))) = None
  /\ parseRDBEntry_turn (I := plain.imports) sample.target6 sample.clock
       (sample.world (skipn 9 contents))
     = (Ok Continue,
        mkWorld (set_idle 5 (NewLoader sample.path [])) (skipn 11 contents) 0)
  /\ fst out = Ok 3
  /\ 3 = replStreamDbId (ld (snd out)).
Proof.
  intros contents out.
  assert (H1 : sample.disk contents (filPath (ld (sample.world []))) = Some contents)
    by reflexivity.
  assert (H2 : (9 <= List.length contents)%nat) by (vm_compute; lia).
  assert (H3 : firstn 5 contents = list_byte_of_string "REDIS") by reflexivity.
  assert (H4 : snd (strconv.Atoi
                      (string_of_list_byte (skipn 5 (firstn 9 contents))))
               = None) by reflexivity.
  assert (Hout : out = (Ok 3, snd out)) by (vm_compute; reflexivity).
  repeat (split; [assumption|]).
  destruct (metadata_opcodes (I := plain.imports) sample.target6 sample.clock
              (sample.disk contents) (sample.world []) contents H1 H2 H3 H4)
    as (Hturn & Hp & _).
  split.
  - destruct (Hturn (sample.world (skipn 9 contents)) kFlagIdle
                (skipn 10 contents)
                (Visits_here sample.target6 sample.clock _) eq_refl eq_refl)
      as (_ & _ & Hidle & _).
    exact (Hidle eq_refl).
  - split; [rewrite Hout; reflexivity|].
    destruct (Hp 3 (snd out) Hout) as [Hv _]. exact Hv.
Defined.

Lemma replace_unsupported_is_lazy_witness :
  let w := sample.world (sample.string_kv ++ sample.eof) in
  let out := parseRDBEntry_turn (I := plain.imports)
               sample.target2_rewrite sample.clock w in
  rewriteOnRestore sample.target2_rewrite = true
  /\ PrimFloat.ltb (config.Version sample.target2_rewrite) 3 = true
  /\ normalValue (I := plain.imports) sample.target2_rewrite (rd w) = true
  /\ fst out = Panic ReplaceNotSupported
  /\ ch (ld (snd out)) = ch (ld w).
Proof.
  intros w out.
  split; [reflexivity|]. split; [reflexivity|]. split; [reflexivity|].
  destruct (replace_unsupported_is_lazy (I := plain.imports)
              sample.target2_rewrite sample.clock eq_refl eq_refl)
    as (Hturn & _).
  apply (Hturn w). reflexivity.
Defined.

Lemma header_validation_witness :
  let contents := list_byte_of_string "RDBIS0011" ++ sample.string_kv ++ sample.eof in
  sample.disk contents (filPath (ld (sample.world []))) = Some contents
  /\ (9 <= List.length contents)%nat
  /\ firstn 5 contents <> list_byte_of_string "REDIS"
  /\ ParseRDB (I := plain.imports) sample.target6 sample.clock
       (sample.disk contents) (sample.world [])
     = (Panic InvalidMagic, sample.world (sample.string_kv ++ sample.eof)).
Proof.
  intros contents.
  assert (H1 : sample.disk contents (filPath (ld (sample.world []))) = Some contents)
    by reflexivity.
  assert (H2 : (9 <= List.length contents)%nat) by (vm_compute; lia).
  assert (H3 : firstn 5 contents <> list_byte_of_string "REDIS")
    by (intros H; vm_compute in H; discriminate H).
  repeat (split; [assumption|]).
  destruct (header_validation (I := plain.imports) sample.target6 sample.clock
              (sample.disk contents) (sample.world []) contents H1)
    as (_ & Hmagic & _).
  exact (Hmagic H2 H3).
Defined.

(** ** The scenarios of the specification *)

(** Header, [SelectDb(0)], one string value within the threshold, end
    marker: one restore command, no modifier, and 0 returned. *)
Example end_to_end_restore :
  let out := ParseRDB (I := plain.imports) sample.target6 sample.clock
               (sample.disk (sample.header ++ sample.select0
                             ++ sample.string_kv ++ sample.eof))
               (sample.world []) in
  fst out = Ok 0
  /\ ch (ld (snd out))
     = [entry.mkEntry 0
          ["restore"; "k"; "0";
           string_of_list_byte (DumpEnvelope (I := plain.imports) x00 [x01; x76])]
          true].
Proof. split; vm_compute; reflexivity. Qed.

(** The same with a threshold the value exceeds: one set command, the
    dump buffer untouched; the old target with rewrite-on-restore is
    no obstacle on this path. *)
Example end_to_end_oversize :
  let out := ParseRDB (I := plain.imports) sample.target2_rewrite_tiny sample.clock
               (sample.disk (sample.header ++ sample.select0
                             ++ sample.string_kv ++ sample.eof))
               (sample.world []) in
  fst out = Ok 0
  /\ ch (ld (snd out)) = [entry.mkEntry 0 ["set"; "k"; "v"] true]
  /\ dumpBuffer (ld (snd out)) = [].
Proof. repeat split; vm_compute; reflexivity. Qed.

(** On the old target with rewrite-on-restore a snapshot without value
    records parses, and one with a value within the threshold panics at
    that record, after the script of the [Aux] record before it was
    sent. *)
Example replace_panic_is_late :
  fst (ParseRDB (I := plain.imports) sample.target2_rewrite sample.clock
         (sample.disk (sample.header ++ sample.aux_lua ++ sample.select0
                       ++ sample.eof))
         (sample.world [])) = Ok 0
  /\ (let out := ParseRDB (I := plain.imports) sample.target2_rewrite sample.clock
                   (sample.disk (sample.header ++ sample.aux_lua
                                 ++ sample.string_kv ++ sample.eof))
                   (sample.world []) in
      fst out = Panic ReplaceNotSupported
      /\ ch (ld (snd out)) = [entry.mkEntry 0 ["script"; "load"; "return 1"] true]).
Proof. repeat split; vm_compute; reflexivity. Qed.

(** Idle and frequency hints and a past expiry before a value record:
    the expiry is 1 and the hints are modifiers of the restore command;
    the next record carries none of them. *)
Example pending_fields_scenario :
  let bytes := sample.idle5 ++ sample.freq7 ++ sample.expire_ms
               ++ sample.string_kv ++ sample.string_kv ++ sample.eof in
  map entry.Argv
      (ch (ld (snd (parseRDBEntry (I := plain.imports) sample.target6
                      (sample.clock_at (sample.ms_stamp + 60000))
                      (sample.world bytes)))))
  = let envelope := string_of_list_byte
                      (DumpEnvelope (I := plain.imports) x00 [x01; x76]) in
    [ ["restore"; "k"; "1"; envelope; "idletime"; "5"; "freq"; "7"];
      ["restore"; "k"; "0"; envelope] ].
Proof. vm_compute. reflexivity. Qed.

(** * Further properties of the loader *)

(** ** Properties of the loader that every step keeps *)

Lemma Keeps_ret {A : Type} (P : Loader -> Prop) (a : A) : Keeps P (ret a).
Proof. intros w r w' H HP. inversion H; subst. exact HP. Qed.

Lemma Keeps_panic {A : Type} (P : Loader -> Prop) (e : PanicMsg) :
  Keeps P (panic (A := A) e).
Proof. intros w r w' H HP. inversion H; subst. exact HP. Qed.

Lemma Keeps_gets {A : Type} (P : Loader -> Prop) (f : Loader -> A) :
  Keeps P (gets f).
Proof. intros w r w' H HP. inversion H; subst. exact HP. Qed.

Lemma Keeps_UnixMilli (P : Loader -> Prop) (clock : nat -> Z) :
  Keeps P (UnixMilli clock).
Proof. intros w r w' H HP. inversion H; subst. exact HP. Qed.

Lemma Keeps_read {A : Type} (P : Loader -> Prop) (f : Reader A) :
  Keeps P (read f).
Proof.
  intros w r w' H HP. unfold read in H.
  destruct (f (rd w)) as [[a n]|]; inversion H; subst; exact HP.
Qed.

Lemma Keeps_teeRead {A : Type} (P : Loader -> Prop) (f : Reader A) :
  Keeps P (teeRead f).
Proof.
  intros w r w' H HP. unfold teeRead in H.
  destruct (f (rd w)) as [[a n]|]; inversion H; subst; exact HP.
Qed.

Lemma Keeps_modify (P : Loader -> Prop) (f : Loader -> Loader) :
  (forall l, P l -> P (f l)) -> Keeps P (modify f).
Proof. intros Hf w r w' H HP. inversion H; subst. cbn. now apply Hf. Qed.

Lemma Keeps_bind {A B : Type} (P : Loader -> Prop) (c : M A) (k : A -> M B) :
  Keeps P c -> (forall a, Keeps P (k a)) -> Keeps P (bind c k).
Proof.
  intros Hc Hk w r w' H HP. unfold bind in H.
  destruct (c w) as [[a| e |] w1] eqn:E; pose proof (Hc _ _ _ E HP) as HP1.
  - exact (Hk a _ _ _ H HP1).
  - inversion H; subst. exact HP1.
  - inversion H; subst. exact HP1.
Qed.

Lemma Keeps_forEach {A : Type} (P : Loader -> Prop) (xs : list A)
    (body : A -> M unit) :
  (forall x, Keeps P (body x)) -> Keeps P (forEach xs body).
Proof.
  intros Hb. induction xs as [|x xs IH]; cbn [forEach].
  - apply Keeps_ret.
  - apply Keeps_bind; [apply Hb | intros _; apply IH].
Qed.

(** Takes a computation apart along its binds and branches, leaving the
    steps that change the loader. *)
Ltac keeps_by tac :=
  repeat first
    [ tac
    | apply Keeps_ret
    | apply Keeps_panic
    | apply Keeps_gets
    | apply Keeps_UnixMilli
    | apply Keeps_read
    | apply Keeps_teeRead
    | apply Keeps_bind
    | apply Keeps_forEach
    | progress cbv beta zeta
    | match goal with
      | |- Keeps _ (if ?b then _ else _) => destruct b eqn:?
      | |- Keeps _ (match ?x with _ => _ end) => destruct x eqn:?
      | |- forall _, _ => intro
      end ].

Ltac keeps := keeps_by fail.

Section Invariants.

Context {I : Imports}.
Variable Config : config.Config.
Variable clock : nat -> Z.

(** What is kept by every turn is kept by the loop. *)
Lemma Keeps_loop (P : Loader -> Prop) :
  Keeps P (parseRDBEntry_turn Config clock) ->
  forall fuel, Keeps P (parseRDBEntry_loop Config clock fuel).
Proof.
  intros Ht fuel. induction fuel as [|k IH]; intros w r w' H HP;
    cbn [parseRDBEntry_loop] in H.
  - inversion H; subst. exact HP.
  - destruct (parseRDBEntry_turn Config clock w) as [[[|]|e|] w1] eqn:E;
      pose proof (Ht _ _ _ E HP) as HP1.
    + exact (IH _ _ _ H HP1).
    + inversion H; subst. exact HP1.
    + inversion H; subst. exact HP1.
    + inversion H; subst. exact HP1.
Qed.

Lemma Keeps_parseRDBEntry (P : Loader -> Prop) :
  Keeps P (parseRDBEntry_turn Config clock) ->
  Keeps P (parseRDBEntry Config clock).
Proof.
  intros Ht w r w' H. unfold parseRDBEntry in H.
  exact (Keeps_loop P Ht _ _ _ _ H).
Qed.

Lemma Keeps_ParseRDB (P : Loader -> Prop) (fs : string -> option (list byte)) :
  Keeps P (parseRDBEntry_turn Config clock) ->
  Keeps P (ParseRDB Config clock fs).
Proof.
  intros Ht. pose proof (Keeps_parseRDBEntry P Ht) as Hp.
  unfold ParseRDB. apply Keeps_bind; [apply Keeps_gets|]. intros path.
  destruct (fs path) as [contents|]; [|apply Keeps_panic].
  apply Keeps_bind.
  { intros w r w' H HP. inversion H; subst. exact HP. }
  intros _. apply Keeps_bind.
  { intros w r w' H HP. unfold ReadFull in H.
    destruct (List.length (rd w) <? 9)%nat; inversion H; subst; exact HP. }
  intros buf. keeps. exact Hp.
Qed.

Lemma Keeps_Visits (P : Loader -> Prop) (w wk : World) :
  Keeps P (parseRDBEntry_turn Config clock) ->
  Visits Config clock w wk -> P (ld w) -> P (ld wk).
Proof.
  intros Ht Hv. induction Hv as [|w w1 w2 E _ IH]; intros HP; [exact HP|].
  apply IH. exact (Ht _ _ _ E HP).
Qed.

(** The tail of both expire cases: whatever difference is stored first,
    the pending expiry is not negative afterwards. *)
Lemma Keeps_expire_tail (e : Z) :
  Keeps (fun l => 0 <= expireMs l)
    (modify (set_expireMs e) ;;
     (if e <? 0 then modify (set_expireMs 1) else ret tt) ;;
     ret Continue).
Proof.
  intros w r w' H _. unfold bind, modify, ret in H.
  destruct (Z.ltb_spec e 0); inversion H; subst; cbn; lia.
Qed.

Lemma turn_keeps_expiry :
  Keeps (fun l => 0 <= expireMs l) (parseRDBEntry_turn Config clock).
Proof.
  unfold parseRDBEntry_turn, parseRDBEntry_switch, parseValue,
    createValueDump, send.
  keeps_by ltac:(apply Keeps_expire_tail);
    apply Keeps_modify; intros [] HP; cbn in *; (assumption || lia).
Qed.

Lemma turn_keeps_grown (before : list entry.Entry) :
  Keeps (grownFrom before) (parseRDBEntry_turn Config clock).
Proof.
  unfold parseRDBEntry_turn, parseRDBEntry_switch, parseValue,
    createValueDump, send.
  keeps; apply Keeps_modify; intros [] (es & Hc & Ha); cbn in *;
    first
      [ exists es; split; assumption
      | eexists (es ++ [_]); split;
        [ rewrite Hc, <- app_assoc; reflexivity
        | apply Forall_app; split; [exact Ha|];
          constructor; [reflexivity|constructor] ] ].
Qed.

Lemma switch_keeps_nowDBId (typeByte : byte) (d : Z) :
  Byte.eqb typeByte kFlagSelect = false ->
  Keeps (fun l => nowDBId l = d) (parseRDBEntry_switch Config clock typeByte).
Proof.
  intros Hsel.
  unfold parseRDBEntry_switch, parseValue, createValueDump, send.
  keeps; try congruence;
    apply Keeps_modify; intros [] HP; cbn in *; assumption.
Qed.

End Invariants.

(** ** Arithmetic of [int64] *)

Lemma int64_small (z : Z) : - 2 ^ 63 <= z < 2 ^ 63 -> int64 z = z.
Proof. intros H. unfold int64. rewrite Z.mod_small; lia. Qed.

Lemma int64_top (z : Z) : 2 ^ 63 <= z < 2 ^ 64 + 2 ^ 63 -> int64 z = z - 2 ^ 64.
Proof.
  intros H. unfold int64.
  replace (z + 2 ^ 63) with ((z - 2 ^ 63) + 1 * 2 ^ 64) by lia.
  rewrite Z.mod_add by lia. rewrite Z.mod_small; lia.
Qed.

(** Subtraction after a conversion is subtraction before it. *)
Lemma int64_sub_l (a b : Z) : int64 (int64 a - b) = int64 (a - b).
Proof.
  unfold int64.
  replace ((a + 2 ^ 63) mod 2 ^ 64 - 2 ^ 63 - b + 2 ^ 63)
    with ((a + 2 ^ 63) mod 2 ^ 64 - b) by lia.
  rewrite Zminus_mod_idemp_l. do 2 f_equal. lia.
Qed.

Lemma uint32_range (z : Z) : 0 <= uint32 z < 2 ^ 32.
Proof. unfold uint32. apply Z.mod_pos_bound. lia. Qed.

Section Further.

Context {I : Imports}.
Variable Config : config.Config.
Variable clock : nat -> Z.

(** X1. Once the pending expiry is not negative it never is again: in
    every world the loop comes to, and in the loader [ParseRDB] leaves
    behind, however the parse ends. *)
Theorem pending_expiry_never_negative (w : World) :
  0 <= expireMs (ld w) ->
  (forall wk, Visits Config clock w wk -> 0 <= expireMs (ld wk))
  /\ 0 <= expireMs (ld (snd (parseRDBEntry Config clock w)))
  /\ forall fs, 0 <= expireMs (ld (snd (ParseRDB Config clock fs w))).
Proof.
  intros H0. split; [|split].
  - intros wk Hv.
    exact (Keeps_Visits Config clock _ w wk (turn_keeps_expiry Config clock) Hv H0).
  - destruct (parseRDBEntry Config clock w) as [r w'] eqn:E.
    exact (Keeps_parseRDBEntry Config clock _ (turn_keeps_expiry Config clock)
             _ _ _ E H0).
  - intros fs. destruct (ParseRDB Config clock fs w) as [r w'] eqn:E.
    exact (Keeps_ParseRDB Config clock _ fs (turn_keeps_expiry Config clock)
             _ _ _ E H0).
Qed.

(** X2. An [ExpireAtSeconds] record, read with the clock at a time that
    is not negative: the pending expiry is the timestamp in milliseconds
    less the clock when that is not negative, and 1 otherwise; nothing
    wraps. *)
Theorem expire_seconds_exact (w : World) (rest : list byte) (at_ : Z) (n : nat) :
  rd w = kFlagExpire :: rest ->
  ReadUint32 rest = Some (at_, n) ->
  0 <= clock (ticks w) < 2 ^ 63 ->
  let d := uint32 at_ * 1000 - clock (ticks w) in
  parseRDBEntry_turn Config clock w =
  (Ok Continue,
   mkWorld (set_expireMs (if 0 <=? d then d else 1) (ld w))
           (skipn n rest) (S (ticks w))).
Proof.
  intros Hrd Hat Hnow d.
  rewrite (turn_expire Config clock w rest at_ n Hrd Hat).
  pose proof (uint32_range at_) as Hu.
  assert (H32 : 2 ^ 32 * 1000 < 2 ^ 63) by (vm_compute; reflexivity).
  rewrite int64_sub_l, (int64_small (clock (ticks w))) by lia.
  fold d. rewrite (int64_small d) by (unfold d; nia).
  unfold clamp. destruct (Z.ltb_spec d 0), (Z.leb_spec 0 d); try lia; reflexivity.
Qed.

(** X3. An [ExpireAtMs] record, read with the clock at a time that is
    not negative: the pending expiry is the timestamp less the clock
    when that fits a positive [int64] or is 0, and 1 otherwise, that is
    for a timestamp in the past and for one 2^63 ms or more ahead. *)
Theorem expire_ms_exact (w : World) (rest : list byte) (at_ : Z) (n : nat) :
  rd w = kFlagExpireMs :: rest ->
  ReadUint64 rest = Some (at_, n) ->
  0 <= clock (ticks w) < 2 ^ 63 ->
  let d := uint64 at_ - clock (ticks w) in
  parseRDBEntry_turn Config clock w =
  (Ok Continue,
   mkWorld (set_expireMs (if (0 <=? d) && (d <? 2 ^ 63) then d else 1) (ld w))
           (skipn n rest) (S (ticks w))).
Proof.
  intros Hrd Hat Hnow d.
  rewrite (turn_expire_ms Config clock w rest at_ n Hrd Hat).
  pose proof (uint64_range at_) as Hu.
  rewrite int64_sub_l, (int64_small (clock (ticks w))) by lia.
  fold d. unfold clamp.
  destruct (Z.leb_spec 0 d) as [Hd|Hd]; cbn [andb].
  - destruct (Z.ltb_spec d (2 ^ 63)) as [Hs|Hs].
    + rewrite (int64_small d) by lia.
      destruct (Z.ltb_spec d 0); [lia|reflexivity].
    + rewrite (int64_top d) by (unfold d in *; lia).
      destruct (Z.ltb_spec (d - 2 ^ 64) 0); [reflexivity|unfold d in *; lia].
  - rewrite (int64_small d) by (unfold d in *; lia).
    destruct (Z.ltb_spec d 0); [reflexivity|lia].
Qed.

End Further.

Section Runs.

Context {I : Imports}.
Variable Config : config.Config.
Variable clock : nat -> Z.

Lemma Visits_length (w wk : World) :
  Visits Config clock w wk ->
  (List.length (rd wk) <= List.length (rd w))%nat.
Proof.
  induction 1 as [|w w1 w2 Ht _ IH]; [lia|].
  apply turn_consumes in Ht. lia.
Qed.

(** X4. The loop ends on every input: one turn more than there are
    bytes left is fuel enough, more fuel changes nothing, and every
    turn that continues leaves fewer bytes to read. *)
Theorem parseRDBEntry_terminates (w : World) (fuel : nat) :
  (List.length (rd w) < fuel)%nat ->
  parseRDBEntry_loop Config clock fuel w = parseRDBEntry Config clock w
  /\ fst (parseRDBEntry_loop Config clock fuel w) <> OutOfFuel
  /\ forall w1 wk,
       parseRDBEntry_turn Config clock w = (Ok Continue, w1) ->
       Visits Config clock w1 wk ->
       (List.length (rd wk) < List.length (rd w))%nat.
Proof.
  intros Hfuel. split; [|split].
  - unfold parseRDBEntry. apply loop_fuel; lia.
  - now apply loop_returns.
  - intros w1 wk Ht Hv. apply turn_consumes in Ht.
    apply Visits_length in Hv. lia.
Qed.

(** A turn ends the loop only on the end marker. *)
Lemma turn_return_inv (w w' : World) :
  parseRDBEntry_turn Config clock w = (Ok Return, w') ->
  exists rest, rd w = kEOF :: rest /\ w' = mkWorld (ld w) rest (ticks w).
Proof.
  intros H.
  destruct (rd w) as [|b rest] eqn:Hrd.
  { rewrite (turn_exhausted Config clock w Hrd) in H. discriminate. }
  destruct (isOpcode b) eqn:Hop.
  - destruct (isOpcode_cases b Hop) as [->|[->|[Hm Hna]]].
    + rewrite (turn_eof Config clock w rest Hrd) in H.
      inversion H; subst. now exists rest.
    + rewrite <- Hrd in *.
      destruct (nextAux (rd w)) as [[[key value] rest']|] eqn:Ha.
      * rewrite (turn_aux Config clock w _ _ _ Ha) in H.
        destruct (String.eqb key "repl-stream-db");
          [destruct (snd (strconv.Atoi value))|destruct (String.eqb key "lua")];
          discriminate.
      * destruct (turn_aux_failed Config clock w rest Hrd Ha) as [Hf _].
        rewrite H in Hf. discriminate.
    + rewrite (turn_switch Config clock w b rest Hrd) in H.
      apply (switch_quiet Config clock b Hm Hna) in H.
      destruct H as (_ & _ & [Hr|[a [Hr Ha]]]); [discriminate|].
      inversion Hr; subst. discriminate.
  - destruct (turn_value_cases Config clock w b rest Hrd Hop)
      as [(_ & Hf & _)|[(v & _ & _ & Ht)|[(v & _ & _ & _ & Ht)|(v & _ & _ & _ & _ & Ht)]]];
      rewrite H in *; discriminate.
Qed.

(** X5. The loop returns exactly when it comes to the end marker, and
    then with the bytes after the marker unread; when the input runs out
    before one it panics on the read of the next opcode. *)
Theorem parse_ends_at_end_marker (w w' : World) :
  (parseRDBEntry Config clock w = (Ok tt, w')
   <-> exists wk rest,
         Visits Config clock w wk
         /\ rd wk = kEOF :: rest
         /\ w' = mkWorld (ld wk) rest (ticks wk))
  /\ (forall wk,
        Visits Config clock w wk -> rd wk = [] ->
        parseRDBEntry Config clock w = (Panic ReadFailed, wk)).
Proof.
  split; [split|].
  - intros H. unfold parseRDBEntry in H. apply loop_ok_visits in H.
    destruct H as (wk & Hv & Ht).
    destruct (turn_return_inv wk w' Ht) as (rest & Hrd & ->).
    now exists wk, rest.
  - intros (wk & rest & Hv & Hrd & ->).
    rewrite (parse_along Config clock w wk Hv), parseRDBEntry_unfold.
    now rewrite (turn_eof Config clock wk rest Hrd).
  - intros wk Hv Hrd.
    rewrite (parse_along Config clock w wk Hv), parseRDBEntry_unfold.
    now rewrite (turn_exhausted Config clock wk Hrd).
Qed.

(** A turn that panics has sent nothing. *)
Lemma turn_panic_silent (w w' : World) (e : PanicMsg) :
  parseRDBEntry_turn Config clock w = (Panic e, w') ->
  ch (ld w') = ch (ld w).
Proof.
  intros H.
  destruct (rd w) as [|b rest] eqn:Hrd.
  { rewrite (turn_exhausted Config clock w Hrd) in H. now inversion H. }
  destruct (isOpcode b) eqn:Hop.
  - destruct (isOpcode_cases b Hop) as [->|[->|[Hm Hna]]].
    + rewrite (turn_eof Config clock w rest Hrd) in H. discriminate.
    + destruct (nextAux (rd w)) as [[[key value] rest']|] eqn:Ha.
      * rewrite (turn_aux Config clock w _ _ _ Ha) in H.
        destruct (String.eqb key "repl-stream-db");
          [|destruct (String.eqb key "lua"); discriminate].
        inversion H; subst. cbn. destruct (ld w); reflexivity.
      * destruct (turn_aux_failed Config clock w rest Hrd Ha) as [_ Hl].
        rewrite H in Hl. cbn in Hl. now rewrite Hl.
    + rewrite (turn_switch Config clock w b rest Hrd) in H.
      apply (switch_quiet Config clock b Hm Hna) in H.
      destruct H as (Hc & _). exact Hc.
  - destruct (turn_value_cases Config clock w b rest Hrd Hop)
      as [(_ & _ & Hl)|[(v & _ & _ & Ht)|[(v & _ & _ & _ & Ht)|(v & _ & _ & _ & _ & Ht)]]];
      rewrite H in *; try discriminate.
    + cbn in Hl. now rewrite Hl.
    + inversion Ht; subst. cbn. destruct (ld w); reflexivity.
Qed.

(** X6. No record is sent in part: a turn that panics has sent nothing,
    so when the loop panics the channel is as it was when the turn that
    panicked began. *)
Theorem panic_sends_nothing (w : World) (e : PanicMsg) :
  fst (parseRDBEntry Config clock w) = Panic e ->
  exists wk,
    Visits Config clock w wk
    /\ fst (parseRDBEntry_turn Config clock wk) = Panic e
    /\ ch (ld (snd (parseRDBEntry Config clock w))) = ch (ld wk).
Proof.
  intros H. unfold parseRDBEntry in *.
  apply loop_panic_visits in H. destruct H as (wk & Hv & Hp & Hs).
  exists wk. split; [assumption|]. split; [assumption|].
  rewrite Hs.
  destruct (parseRDBEntry_turn Config clock wk) as [r w1] eqn:E.
  cbn in Hp. subst r. exact (turn_panic_silent wk w1 e E).
Qed.

(** X7. The channel only grows, and by entries that carry the
    snapshot-load flag: in every world the loop comes to and after
    [ParseRDB], however it ends, the channel is what it was at the start
    followed by such entries. *)
Theorem channel_only_grows (w : World) :
  (forall wk,
      Visits Config clock w wk ->
      exists es, ch (ld wk) = ch (ld w) ++ es
                 /\ Forall (fun e => entry.IsBase e = true) es)
  /\ (exists es, ch (ld (snd (parseRDBEntry Config clock w))) = ch (ld w) ++ es
                 /\ Forall (fun e => entry.IsBase e = true) es)
  /\ (forall fs,
        exists es, ch (ld (snd (ParseRDB Config clock fs w))) = ch (ld w) ++ es
                   /\ Forall (fun e => entry.IsBase e = true) es).
Proof.
  assert (H0 : grownFrom (ch (ld w)) (ld w)).
  { exists []. split; [now rewrite app_nil_r|constructor]. }
  pose proof (turn_keeps_grown Config clock (ch (ld w))) as Ht.
  split; [|split].
  - intros wk Hv.
    exact (Keeps_Visits Config clock _ w wk Ht Hv H0).
  - destruct (parseRDBEntry Config clock w) as [r w'] eqn:E.
    exact (Keeps_parseRDBEntry Config clock _ Ht _ _ _ E H0).
  - intros fs. destruct (ParseRDB Config clock fs w) as [r w'] eqn:E.
    exact (Keeps_ParseRDB Config clock _ fs Ht _ _ _ E H0).
Qed.

End Runs.

Section Selection.

Context {I : Imports}.
Variable Config : config.Config.
Variable clock : nat -> Z.

(** Only a [SelectDb] record changes the current database index. *)
Lemma turn_keeps_nowDBId (w w' : World) (r : Res Flow) :
  selectRecord (rd w) = false ->
  parseRDBEntry_turn Config clock w = (r, w') ->
  nowDBId (ld w') = nowDBId (ld w).
Proof.
  intros Hsel H.
  destruct (rd w) as [|b rest] eqn:Hrd.
  - rewrite (turn_exhausted Config clock w Hrd) in H. now inversion H.
  - rewrite (turn_switch Config clock w b rest Hrd) in H. cbn in Hsel.
    exact (switch_keeps_nowDBId Config clock b (nowDBId (ld w)) Hsel
             _ _ _ H eq_refl).
Qed.

(** X8. From one [SelectDb] record to the next the current database
    index stays: after turns on records other than [SelectDb] it is
    what it was, and all the commands of a value record met then carry
    it. A [SelectDb] record sets it to the length read, converted to
    [int]. *)
Theorem database_index_between_selects (w wk : World) :
  VisitsVia Config clock (fun w0 => selectRecord (rd w0) = false) w wk ->
  nowDBId (ld wk) = nowDBId (ld w)
  /\ (forall v r w',
        nextValue (rd wk) = Some v ->
        parseRDBEntry_turn Config clock wk = (r, w') ->
        exists es,
          ch (ld w') = ch (ld wk) ++ es
          /\ Forall (fun e => entry.DbId e = nowDBId (ld w)) es)
  /\ (forall rest n k,
        rd wk = kFlagSelect :: rest ->
        ReadLength rest = Some (n, k) ->
        parseRDBEntry_turn Config clock wk =
        (Ok Continue,
         mkWorld (set_nowDBId (int64 (uint64 n)) (ld wk)) (skipn k rest)
                 (ticks wk))).
Proof.
  intros Hv.
  assert (Hdb : nowDBId (ld wk) = nowDBId (ld w)).
  { induction Hv as [|w w1 w2 Hsel Ht _ IH]; [reflexivity|].
    rewrite IH. exact (turn_keeps_nowDBId w w1 _ Hsel Ht). }
  split; [exact Hdb|]. split.
  - intros v r w' Hnv Ht. rewrite <- Hdb.
    destruct (rd wk) as [|b rest] eqn:Hrd; [discriminate|].
    assert (Hop : isOpcode b = false).
    { unfold nextValue in Hnv. destruct (isOpcode b); [discriminate|reflexivity]. }
    rewrite <- Hrd in Hnv.
    destruct (turn_value_cases Config clock wk b rest Hrd Hop)
      as [(Hn & _)|[(v' & _ & _ & E)|[(v' & _ & _ & _ & E)|(v' & _ & _ & _ & _ & E)]]].
    + congruence.
    + rewrite E in Ht. inversion Ht; subst.
      exists (rewriteEntries (ld wk) (vr_object v') (vr_key v')). split.
      * cbn. destruct (ld wk); reflexivity.
      * unfold rewriteEntries. apply Forall_app. split.
        -- apply Forall_map. apply Forall_forall. intros cmd _. reflexivity.
        -- destruct (expireMs (ld wk) =? 0); repeat constructor.
    + rewrite E in Ht. inversion Ht; subst.
      exists [entry.mkEntry (nowDBId (ld wk))
                (restoreArgv Config (ld wk) (vr_key v')
                   (string_of_list_byte
                      (DumpEnvelope (vr_typeByte v') (vr_payload v'))))
                true].
      split.
      * cbn. destruct (ld wk); reflexivity.
      * repeat constructor.
    + rewrite E in Ht. inversion Ht; subst.
      exists []. split; [|constructor].
      cbn. destruct (ld wk); cbn. now rewrite app_nil_r.
  - intros rest n k Hrd Hn. now apply (turn_select Config clock).
Qed.

(** X9. The version of the header is checked and then not used: two
    files with valid headers and the same bytes after the header parse
    alike, whatever their versions. *)
Theorem version_not_used (fs1 fs2 : string -> option (list byte)) (w : World)
    (c1 c2 : list byte) :
  fs1 (filPath (ld w)) = Some c1 ->
  fs2 (filPath (ld w)) = Some c2 ->
  (9 <= List.length c1)%nat -> (9 <= List.length c2)%nat ->
  firstn 5 c1 = list_byte_of_string "REDIS" ->
  firstn 5 c2 = list_byte_of_string "REDIS" ->
  snd (strconv.Atoi (string_of_list_byte (skipn 5 (firstn 9 c1)))) = None ->
  snd (strconv.Atoi (string_of_list_byte (skipn 5 (firstn 9 c2)))) = None ->
  skipn 9 c1 = skipn 9 c2 ->
  ParseRDB Config clock fs1 w = ParseRDB Config clock fs2 w.
Proof.
  intros H1 H2 L1 L2 M1 M2 V1 V2 Hbody.
  rewrite (ParseRDB_read Config clock fs1 w c1 H1 L1).
  rewrite (ParseRDB_read Config clock fs2 w c2 H2 L2).
  rewrite !firstn_firstn. cbn [Nat.min].
  apply bytes_Equal_eq in M1, M2.
  rewrite M1, M2, V1, V2, Hbody. reflexivity.
Qed.

(** X10. [ParseRDB] returns only after a valid header and an end
    marker, with the replication database index held when the marker is
    met and the bytes after the marker unread; a file that does not open
    is a panic that leaves everything as it was. *)
Theorem ParseRDB_success (fs : string -> option (list byte)) (w : World) :
  (forall v w',
      ParseRDB Config clock fs w = (Ok v, w') ->
      exists contents wk rest,
        fs (filPath (ld w)) = Some contents
        /\ (9 <= List.length contents)%nat
        /\ firstn 5 contents = list_byte_of_string "REDIS"
        /\ snd (strconv.Atoi (string_of_list_byte (skipn 5 (firstn 9 contents))))
           = None
        /\ Visits Config clock
             (mkWorld (ld w) (skipn 9 contents) (ticks w)) wk
        /\ rd wk = kEOF :: rest
        /\ v = replStreamDbId (ld wk)
        /\ w' = mkWorld (ld wk) rest (ticks wk))
  /\ (fs (filPath (ld w)) = None ->
      ParseRDB Config clock fs w = (Panic OpenFileFailed, w)).
Proof.
  split.
  - intros v w' H.
    destruct (fs (filPath (ld w))) as [contents|] eqn:Hfs.
    2:{ unfold ParseRDB, bind at 1, gets in H. rewrite Hfs in H. discriminate. }
    exists contents.
    destruct (Nat.ltb_spec (List.length contents) 9) as [Hlt|Hge].
    { rewrite (ParseRDB_short Config clock fs w contents Hfs Hlt) in H.
      discriminate. }
    rewrite (ParseRDB_read Config clock fs w contents Hfs Hge) in H.
    rewrite firstn_firstn in H. cbn [Nat.min] in H.
    destruct (bytes_Equal (firstn 5 contents) (list_byte_of_string "REDIS"))
      eqn:Hm; [|discriminate].
    apply bytes_Equal_eq in Hm. cbn [negb] in H.
    destruct (snd (strconv.Atoi
                     (string_of_list_byte (skipn 5 (firstn 9 contents)))))
      as [err|] eqn:Hver; [discriminate|].
    apply ParseRDB_ok_inv in H. destruct H as [Hp ->].
    apply (parse_ends_at_end_marker Config clock) in Hp.
    destruct Hp as (wk & rest & Hv & Hrd & ->).
    exists wk, rest. repeat split; assumption.
  - intros Hfs. unfold ParseRDB, bind at 1, gets. rewrite Hfs. reflexivity.
Qed.

(** X11. On a target older than 5.0 the normal path drops the idle and
    frequency hints too: the result of the turn and the commands sent
    do not depend on them. *)
Theorem old_target_drops_idle_freq (w : World) (v : ValueRecord) (i f : Z) :
  nextValue (rd w) = Some v ->
  oversize Config v = false ->
  PrimFloat.leb 5 (config.Version Config) = false ->
  let out := parseRDBEntry_turn Config clock w in
  let out' := parseRDBEntry_turn Config clock
                (mkWorld (set_freq f (set_idle i (ld w))) (rd w) (ticks w)) in
  fst out' = fst out
  /\ ch (ld (snd out')) = ch (ld (snd out))
  /\ (idle (ld (snd out)) = 0 /\ freq (ld (snd out)) = 0
      \/ fst out = Panic ReplaceNotSupported).
Proof.
  intros Hv Hover Hgate out out'. subst out out'.
  destruct (rewriteOnRestore Config && PrimFloat.ltb (config.Version Config) 3)
    eqn:Hcfg.
  - apply andb_prop in Hcfg as [Hrw Hold].
    rewrite (turn_replace_panic Config clock w v Hv Hover Hrw Hold).
    rewrite (turn_replace_panic Config clock
               (mkWorld (set_freq f (set_idle i (ld w))) (rd w) (ticks w))
               v Hv Hover Hrw Hold).
    cbn. destruct (ld w); cbn. auto.
  - rewrite (turn_restore Config clock w v Hv Hover Hcfg).
    rewrite (turn_restore Config clock
               (mkWorld (set_freq f (set_idle i (ld w))) (rd w) (ticks w))
               v Hv Hover Hcfg).
    unfold restoreArgv. cbn. destruct (ld w); cbn.
    rewrite Hgate, !andb_false_r. auto.
Qed.

End Selection.

Lemma length_string_of_list_byte (bs : list byte) :
  String.length (string_of_list_byte bs) = List.length bs.
Proof.
  induction bs as [|b bs IH]; cbn; [reflexivity|].
  f_equal. exact IH.
Qed.

Section EnvelopeMore.

Context {I : Imports}.

(** X12. Envelopes tell values apart: two calls of [createValueDump]
    that return the same string were given the same type tag and the
    same payload; the string is eleven bytes longer than the payload. *)
Theorem createValueDump_injective
    (t1 t2 : byte) (v1 v2 : list byte) (w1 w2 : World) :
  fst (createValueDump t1 v1 w1) = fst (createValueDump t2 v2 w2) ->
  (t1 = t2 /\ v1 = v2)
  /\ forall s, fst (createValueDump t1 v1 w1) = Ok s ->
       String.length s = (11 + List.length v1)%nat.
Proof.
  rewrite !createValueDump_eq. cbn [fst]. intros H. split.
  - assert (H' : string_of_list_byte (DumpEnvelope t1 v1)
                 = string_of_list_byte (DumpEnvelope t2 v2)) by congruence.
    clear H. rename H' into H. apply (f_equal list_byte_of_string) in H.
    rewrite !list_byte_of_string_of_list_byte in H.
    apply (f_equal splitDump) in H.
    rewrite !splitDump_DumpEnvelope in H. injection H as -> -> _. now split.
  - intros s Hs. injection Hs as <-.
    rewrite length_string_of_list_byte. unfold DumpEnvelope.
    rewrite !length_app, !length_le_bytes. cbn. lia.
Qed.

End EnvelopeMore.

Section Hints.

Context {I : Imports}.
Variable Config : config.Config.
Variable clock : nat -> Z.

Lemma turn_keeps_freq :
  Keeps (fun l => 0 <= freq l <= 255) (parseRDBEntry_turn Config clock).
Proof.
  unfold parseRDBEntry_turn, parseRDBEntry_switch, parseValue,
    createValueDump, send.
  keeps; apply Keeps_modify; intros [] HP; cbn in *;
    first [ assumption | lia
          | match goal with
            | |- _ <= Z_of_byte ?b <= _ => pose proof (Z_of_byte_range b); lia
            end ].
Qed.

(** X13. The pending frequency is a byte value once it is one: it lies
    between 0 and 255 in every world the loop comes to and in the loader
    the loop and [ParseRDB] leave behind, however they end. *)
Theorem pending_freq_is_byte (w : World) :
  0 <= freq (ld w) <= 255 ->
  (forall wk, Visits Config clock w wk -> 0 <= freq (ld wk) <= 255)
  /\ 0 <= freq (ld (snd (parseRDBEntry Config clock w))) <= 255
  /\ (forall fs, 0 <= freq (ld (snd (ParseRDB Config clock fs w))) <= 255).
Proof.
  intros H0. pose proof turn_keeps_freq as Ht.
  split; [|split].
  - intros wk Hv. exact (Keeps_Visits Config clock _ w wk Ht Hv H0).
  - destruct (parseRDBEntry Config clock w) as [r w'] eqn:E.
    exact (Keeps_parseRDBEntry Config clock _ Ht _ _ _ E H0).
  - intros fs. destruct (ParseRDB Config clock fs w) as [r w'] eqn:E.
    exact (Keeps_ParseRDB Config clock _ fs Ht _ _ _ E H0).
Qed.

End Hints.

(** ** Runs of the further properties *)

Lemma pending_expiry_never_negative_witness :
  let w := sample.world (sample.expire_ms ++ sample.string_kv) in
  0 <= expireMs (ld w)
  /\ 0 <= expireMs (ld (snd (parseRDBEntry (I := plain.imports) sample.target6
                               (sample.clock_at (sample.ms_stamp + 60000)) w))).
Proof.
  intros w.
  assert (H0 : 0 <= expireMs (ld w)) by (vm_compute; discriminate).
  split; [exact H0|].
  destruct (pending_expiry_never_negative (I := plain.imports) sample.target6
              (sample.clock_at (sample.ms_stamp + 60000)) w H0)
    as (_ & Hp & _).
  exact Hp.
Defined.

Lemma expire_seconds_exact_witness :
  let w := sample.world (sample.expire_s ++ sample.string_kv ++ sample.eof) in
  let clock := sample.clock_at (sample.s_stamp * 1000 + 5) in
  rd w = kFlagExpire :: skipn 1 (rd w)
  /\ ReadUint32 (Structure := plain.structure) (skipn 1 (rd w))
     = Some (sample.s_stamp, 4%nat)
  /\ 0 <= clock (ticks w) < 2 ^ 63
  /\ parseRDBEntry_turn (I := plain.imports) sample.target6 clock w
     = (Ok Continue,
        mkWorld (set_expireMs 1 (NewLoader sample.path []))
                (sample.string_kv ++ sample.eof) 1).
Proof.
  intros w clock.
  assert (H1 : rd w = kFlagExpire :: skipn 1 (rd w)) by reflexivity.
  assert (H2 : ReadUint32 (Structure := plain.structure) (skipn 1 (rd w))
               = Some (sample.s_stamp, 4%nat)) by reflexivity.
  assert (H3 : 0 <= clock (ticks w) < 2 ^ 63) by (vm_compute; split; congruence).
  repeat (split; [assumption|]).
  exact (expire_seconds_exact (I := plain.imports) sample.target6 clock w
           (skipn 1 (rd w)) sample.s_stamp 4 H1 H2 H3).
Defined.

Lemma expire_ms_exact_witness :
  let w := sample.world (sample.expire_ms ++ sample.string_kv ++ sample.eof) in
  let clock := sample.clock_at (sample.ms_stamp - 250) in
  rd w = kFlagExpireMs :: skipn 1 (rd w)
  /\ ReadUint64 (Structure := plain.structure) (skipn 1 (rd w))
     = Some (sample.ms_stamp, 8%nat)
  /\ 0 <= clock (ticks w) < 2 ^ 63
  /\ parseRDBEntry_turn (I := plain.imports) sample.target6 clock w
     = (Ok Continue,
        mkWorld (set_expireMs 250 (NewLoader sample.path []))
                (sample.string_kv ++ sample.eof) 1).
Proof.
  intros w clock.
  assert (H1 : rd w = kFlagExpireMs :: skipn 1 (rd w)) by reflexivity.
  assert (H2 : ReadUint64 (Structure := plain.structure) (skipn 1 (rd w))
               = Some (sample.ms_stamp, 8%nat)) by reflexivity.
  assert (H3 : 0 <= clock (ticks w) < 2 ^ 63) by (vm_compute; split; congruence).
  repeat (split; [assumption|]).
  exact (expire_ms_exact (I := plain.imports) sample.target6 clock w
           (skipn 1 (rd w)) sample.ms_stamp 8 H1 H2 H3).
Defined.

Lemma parseRDBEntry_terminates_witness :
  let w := sample.world (sample.select0 ++ sample.string_kv ++ sample.eof) in
  (List.length (rd w) < 100)%nat
  /\ parseRDBEntry_loop (I := plain.imports) sample.target6 sample.clock 100 w
     = parseRDBEntry (I := plain.imports) sample.target6 sample.clock w.
Proof.
  intros w.
  assert (H : (List.length (rd w) < 100)%nat) by (vm_compute; lia).
  split; [exact H|].
  apply (parseRDBEntry_terminates (I := plain.imports)
           sample.target6 sample.clock w 100 H).
Defined.

Lemma panic_sends_nothing_witness :
  let w := sample.world (sample.aux_lua ++ [x00; x01]) in
  let out := parseRDBEntry (I := plain.imports) sample.target6 sample.clock w in
  fst out = Panic ReadFailed
  /\ exists wk,
       Visits (I := plain.imports) sample.target6 sample.clock w wk
       /\ fst (parseRDBEntry_turn (I := plain.imports)
                 sample.target6 sample.clock wk) = Panic ReadFailed
       /\ ch (ld (snd out)) = ch (ld wk).
Proof.
  intros w out.
  assert (H : fst out = Panic ReadFailed) by (vm_compute; reflexivity).
  split; [exact H|].
  exact (panic_sends_nothing (I := plain.imports)
           sample.target6 sample.clock w ReadFailed H).
Defined.

Lemma database_index_between_selects_witness :
  let w := mkWorld (set_nowDBId 3 (NewLoader sample.path []))
             (sample.idle5 ++ sample.string_kv ++ sample.eof) 0 in
  let wk := snd (parseRDBEntry_turn (I := plain.imports)
                   sample.target6 sample.clock w) in
  VisitsVia (I := plain.imports) sample.target6 sample.clock
    (fun w0 => selectRecord (rd w0) = false) w wk
  /\ nowDBId (ld wk) = 3.
Proof.
  intros w wk.
  assert (Hv : VisitsVia (I := plain.imports) sample.target6 sample.clock
                 (fun w0 => selectRecord (rd w0) = false) w wk).
  { apply (VisitsVia_turn sample.target6 sample.clock _ w wk wk).
    - reflexivity.
    - vm_compute. reflexivity.
    - apply VisitsVia_here. }
  split; [exact Hv|].
  apply (database_index_between_selects (I := plain.imports)
           sample.target6 sample.clock w wk Hv).
Defined.

Lemma version_not_used_witness :
  let c1 := list_byte_of_string "REDIS0011" ++ sample.string_kv ++ sample.eof in
  let c2 := list_byte_of_string "REDIS0006" ++ sample.string_kv ++ sample.eof in
  skipn 9 c1 = skipn 9 c2
  /\ ParseRDB (I := plain.imports) sample.target6 sample.clock
       (sample.disk c1) (sample.world [])
     = ParseRDB (I := plain.imports) sample.target6 sample.clock
         (sample.disk c2) (sample.world []).
Proof.
  intros c1 c2. split; [reflexivity|].
  apply (version_not_used (I := plain.imports) sample.target6 sample.clock
           (sample.disk c1) (sample.disk c2) (sample.world []) c1 c2);
    try reflexivity; vm_compute; lia.
Defined.

Lemma ParseRDB_success_witness :
  let contents := sample.header ++ sample.aux_repl3 ++ sample.eof ++ [x2a] in
  let out := ParseRDB (I := plain.imports) sample.target6 sample.clock
               (sample.disk contents) (sample.world []) in
  out = (Ok 3, snd out)
  /\ exists c wk rest,
       sample.disk contents sample.path = Some c
       /\ Visits (I := plain.imports) sample.target6 sample.clock
            (sample.world (skipn 9 c)) wk
       /\ rd wk = kEOF :: rest
       /\ 3 = replStreamDbId (ld wk)
       /\ snd out = mkWorld (ld wk) rest (ticks wk).
Proof.
  intros contents out.
  assert (H : out = (Ok 3, snd out)) by (vm_compute; reflexivity).
  split; [exact H|].
  destruct (proj1 (ParseRDB_success (I := plain.imports)
                     sample.target6 sample.clock
                     (sample.disk contents) (sample.world []))
              3 (snd out) H)
    as (c & wk & rest & Hfs & _ & _ & _ & Hv & Hrd & Hrs & Hw).
  exists c, wk, rest. repeat split; assumption.
Defined.

Lemma old_target_drops_idle_freq_witness :
  let w := sample.world (sample.string_kv ++ sample.eof) in
  nextValue (I := plain.imports) (rd w) = Some sample.kv_record
  /\ oversize sample.target2 sample.kv_record = false
  /\ PrimFloat.leb 5 (config.Version sample.target2) = false
  /\ ch (ld (snd (parseRDBEntry_turn (I := plain.imports)
                    sample.target2 sample.clock
                    (mkWorld (set_freq 7 (set_idle 5 (ld w))) (rd w) (ticks w)))))
     = ch (ld (snd (parseRDBEntry_turn (I := plain.imports)
                      sample.target2 sample.clock w))).
Proof.
  intros w.
  split; [reflexivity|]. split; [reflexivity|]. split; [reflexivity|].
  apply (old_target_drops_idle_freq (I := plain.imports)
           sample.target2 sample.clock w sample.kv_record 5 7);
    reflexivity.
Defined.

Lemma createValueDump_injective_witness :
  let out1 := createValueDump (I := plain.imports) x00 [x01; x76] (sample.world []) in
  let out2 := createValueDump (I := plain.imports) x00 [x01; x76]
                (sample.pending_world sample.eof) in
  fst out1 = fst out2
  /\ forall s, fst out1 = Ok s -> String.length s = 13%nat.
Proof.
  intros out1 out2.
  assert (H : fst out1 = fst out2) by (vm_compute; reflexivity).
  split; [exact H|].
  apply (createValueDump_injective (I := plain.imports)
           x00 x00 [x01; x76] [x01; x76]
           (sample.world []) (sample.pending_world sample.eof) H).
Defined.

Lemma pending_freq_is_byte_witness :
  let w := sample.world (sample.freq7 ++ sample.string_kv) in
  0 <= freq (ld w) <= 255
  /\ 0 <= freq (ld (snd (parseRDBEntry (I := plain.imports)
                           sample.target6 sample.clock w))) <= 255.
Proof.
  intros w.
  assert (H0 : 0 <= freq (ld w) <= 255) by (vm_compute; split; discriminate).
  split; [exact H0|].
  destruct (pending_freq_is_byte (I := plain.imports)
              sample.target6 sample.clock w H0)
    as (_ & Hp & _).
  exact Hp.
Defined.
